(** * GenshinCarculator: the cost-aggregation engine of app.js

    A shallow embedding of the calculators of app.js (level cost, talent
    cost, per-character cost, roster totals) and of the region/day series
    resolver of [loadData], with the properties the specification states
    about them.

    Conventions of the embedding.
    - A JavaScript number is an integer or NaN ([number]), added exactly.
      Every constant of the program is an integer far below 2^53, where
      double arithmetic is exact.  Fractions and infinities are outside the
      carrier, so the statements keep every [||0] guard of the code where
      the code has it, and the properties that need sums without rounding
      say so in a hypothesis (integers from 0, totals at most 2^53).
    - The tables written as literals in app.js hold integer literals and are
      kept as [Z]; they are injected with [Num] where the code reads them.
    - An object literal used as a dictionary is a finite map over its own
      keys.  The alias tables are read with the raw text of the input, so
      their lookup ([getProp]) also finds the members inherited from
      Object.prototype; the other lookups never meet an inherited name.
    - Strings are byte strings; non-ASCII text is its UTF-8 encoding.
      [trim] and [toLowerCase] are the ASCII parts of the built-ins and
      agree with them on ASCII strings; a statement that needs this
      agreement has an [isAscii] hypothesis. *)

From Stdlib Require Import ZArith List String Ascii Bool Lia Sorted.
From Stdlib Require Import DecimalString Permutation.
From stdpp Require Import base gmap strings list fin_maps.
Import ListNotations.

Local Open Scope Z_scope.

(** ** JavaScript numbers *)

Inductive number : Set :=
| NaN
| Num (z : Z).

(** [x <= y], [x < y], [x >= y], [x > y]: false as soon as one side is NaN. *)
Definition js_le (x y : number) : bool :=
  match x, y with Num a, Num b => a <=? b | _, _ => false end.

Definition js_lt (x y : number) : bool :=
  match x, y with Num a, Num b => a <? b | _, _ => false end.

Definition js_ge (x y : number) : bool :=
  match x, y with Num a, Num b => a >=? b | _, _ => false end.

Definition js_gt (x y : number) : bool :=
  match x, y with Num a, Num b => a >? b | _, _ => false end.

(** [x + y] on numbers. *)
Definition js_add (x y : number) : number :=
  match x, y with Num a, Num b => Num (a + b) | _, _ => NaN end.

(** [Math.min(x, y)]. *)
Definition js_min (x y : number) : number :=
  match x, y with Num a, Num b => Num (Z.min a b) | _, _ => NaN end.

(** SameValueZero, the comparison of [Array.prototype.includes]. *)
Definition same_value_zero (x y : number) : bool :=
  match x, y with
  | NaN, NaN => true
  | Num a, Num b => a =? b
  | _, _ => false
  end.

(** Truthiness of a number: 0 and NaN are falsy. *)
Definition truthy_num (x : number) : bool :=
  match x with NaN => false | Num z => negb (z =? 0) end.

(** [x || d] on numbers. *)
Definition js_or (x d : number) : number :=
  if truthy_num x then x else d.

Definition is_num (x : number) : Prop :=
  match x with NaN => False | Num _ => True end.

(** ** 3) Level cost (segment totals) *)

Record LevelCostSegment : Set := mkSegment {
  from_level : Z;
  to_level : Z;
  total_xp : Z;
  total_mora : Z;
  hero_wit : Z
}.

Definition LEVEL_COSTS : list LevelCostSegment :=
  [ mkSegment 1 20 120175 28000 7;
    mkSegment 20 40 578325 112000 28;
    mkSegment 40 50 573100 116000 29;
    mkSegment 50 60 859525 172000 43;
    mkSegment 60 70 1196525 240000 60;
    mkSegment 70 80 1611875 320000 80;
    mkSegment 80 90 3423125 688000 172 ].

Definition LEVEL_ANCHORS : list Z := [1; 20; 40; 50; 60; 70; 80; 90].

(** ** 7) Calculators *)

(** The object [{ xp, mora, hero }] returned by calcLevelCost. *)
Record LevelCost : Set := mkLevelCost {
  lc_xp : number;
  lc_mora : number;
  lc_hero : number
}.

Definition zeroLevelCost : LevelCost := mkLevelCost (Num 0) (Num 0) (Num 0).

(** [LEVEL_ANCHORS.includes(x)] *)
Definition includes (l : list Z) (x : number) : bool :=
  existsb (fun a => same_value_zero (Num a) x) l.

(** [LEVEL_ANCHORS.reduce((a,b)=> (b<=curr ? b : a), 1)] *)
Definition floorScan (l : list Z) (curr : number) (init : number) : number :=
  fold_left (fun a b => if js_le (Num b) curr then Num b else a) l init.

(** [LEVEL_ANCHORS.reduce((a,b)=> (b>=target ? Math.min(a,b) : a), 90)] *)
Definition ceilScan (l : list Z) (target : number) (init : number) : number :=
  fold_left (fun a b => if js_ge (Num b) target then js_min a (Num b) else a)
            l init.

(** The constant [c] of calcLevelCost. *)
Definition clipFloor (curr : number) : number :=
  if includes LEVEL_ANCHORS curr then curr
  else floorScan LEVEL_ANCHORS curr (Num 1).

(** The constant [t] of calcLevelCost. *)
Definition clipCeiling (target : number) : number :=
  if includes LEVEL_ANCHORS target then target
  else ceilScan LEVEL_ANCHORS target (Num 90).

(** One turn of the loop over LEVEL_COSTS. *)
Definition levelStep (c t : number) (acc : LevelCost) (row : LevelCostSegment)
  : LevelCost :=
  if js_gt (Num (to_level row)) c && js_lt (Num (from_level row)) t
  then mkLevelCost (js_add (lc_xp acc) (Num (total_xp row)))
                   (js_add (lc_mora acc) (Num (total_mora row)))
                   (js_add (lc_hero acc) (Num (hero_wit row)))
  else acc.

Definition calcLevelCost (curr target : number) : LevelCost :=
  if js_le target curr then zeroLevelCost
  else
    let c := clipFloor curr in
    let t := clipCeiling target in
    fold_left (levelStep c t) LEVEL_COSTS zeroLevelCost.

(** A row of TALENT_COSTS, as [loadData] builds it: seven numbers. *)
Record TalentStep : Set := mkStep {
  step_from : number;
  step_to : number;
  book_low : number;
  book_mid : number;
  book_high : number;
  step_mora : number;
  step_crown : number
}.

(** The object [{ low, mid, high }]. *)
Record Books : Set := mkBooks {
  low : number;
  mid : number;
  high : number
}.

(** The object [{ mora, crown, books }] returned by calcTalentCost. *)
Record TalentCost : Set := mkTalentCost {
  tc_mora : number;
  tc_crown : number;
  tc_books : Books
}.

Definition zeroBooks : Books := mkBooks (Num 0) (Num 0) (Num 0).
Definition zeroTalentCost : TalentCost := mkTalentCost (Num 0) (Num 0) zeroBooks.

(** ** Series descriptors attached to characters and roster entries *)

Record Tier : Set := mkTier {
  tier_key : string;
  label_kr : string;
  tier_image : string
}.

Record Tiers : Set := mkTiers {
  tier_low : Tier;
  tier_mid : Tier;
  tier_high : Tier
}.

(** The object [book] of [loadData], stored as [talent_book]. *)
Record Book : Set := mkBook {
  key : string;
  name_kr : string;
  book_image : string;
  tiers : Tiers
}.

(** ** Members inherited from Object.prototype

    An object literal inherits the members of Object.prototype, so
    [obj[key]] finds them when [obj] has no own property [key]. *)

Local Open Scope string_scope.

Definition objectPrototypeNames : list string :=
  [ "constructor"; "__defineGetter__"; "__defineSetter__"; "hasOwnProperty";
    "__lookupGetter__"; "__lookupSetter__"; "isPrototypeOf";
    "propertyIsEnumerable"; "toString"; "valueOf"; "__proto__";
    "toLocaleString" ].

(** What the normalization stores as region or day: a string, or the
    member of Object.prototype of the given name (a built-in function; for
    [__proto__] the prototype object itself). *)
Inductive propValue : Set :=
| Text (s : string)
| Inherited (name : string).

(** [obj[key]] on a table of strings written as an object literal; [None]
    is undefined. *)
Definition getProp (obj : gmap string string) (key : string)
  : option propValue :=
  match obj !! key with
  | Some v => Some (Text v)
  | None =>
      if existsb (String.eqb key) objectPrototypeNames
      then Some (Inherited key) else None
  end.

(** Truthiness: the empty string is falsy, functions and objects are
    truthy. *)
Definition truthy_value (v : propValue) : bool :=
  match v with
  | Text s => negb (String.eqb s "")
  | Inherited _ => true
  end.

(** [o || d] on such values. *)
Definition or_value (o : option propValue) (d : propValue) : propValue :=
  match o with
  | Some v => if truthy_value v then v else d
  | None => d
  end.

(** The conversion to a string, in a template literal or as a property
    key: a built-in function gives its native source text (as V8 prints
    it), the prototype object gives [[object Object]]. *)
Definition valueText (v : propValue) : string :=
  match v with
  | Text s => s
  | Inherited name =>
      if String.eqb name "__proto__" then "[object Object]"
      else "function "
           ++ (if String.eqb name "constructor" then "Object" else name)
           ++ "() { [native code] }"
  end.

Local Close Scope string_scope.

(** An item of [appState.list]. *)
Record Entry : Set := mkEntry {
  uid : string;
  item_id : string;
  item_name : string;
  item_element : string;
  item_image : string;
  levelCurrent : number;
  levelTarget : number;
  naCurrent : number;
  naTarget : number;
  skillCurrent : number;
  skillTarget : number;
  burstCurrent : number;
  burstTarget : number;
  talent_book : option Book;
  region : propValue
}.

(** The object returned by calcCharacterCost. *)
Record CharacterCost : Set := mkCharacterCost {
  cc_mora : number;
  cc_xp : number;
  cc_heroBooks : number;
  cc_books : Books;
  cc_crown : number
}.

(** The accumulator [sum] of refreshTotals. *)
Record GlobalSums : Set := mkGlobalSums {
  sum_mora : number;
  sum_xp : number;
  sum_hero : number;
  sum_books : Books;
  sum_crown : number
}.

Record SeriesSums : Set := mkSeriesSums {
  teachings : number;
  guide : number;
  philosophies : number
}.

Record SeriesIcons : Set := mkSeriesIcons {
  icon_teachings : string;
  icon_guide : string;
  icon_philosophies : string
}.

(** A value of the object [seriesTotals] of refreshTotals. *)
Record SeriesTotals : Set := mkSeriesTotals {
  st_key : string;
  nameKr : string;
  st_region : propValue;
  sums : SeriesSums;
  icons : SeriesIcons
}.

(** [o || d] where [o] is a string or undefined ([None]): the empty string
    and undefined are falsy. *)
Definition or_str (o : option string) (d : string) : string :=
  match o with
  | Some s => if String.eqb s "" then d else s
  | None => d
  end.

Section Calculators.

(** The global [TALENT_COSTS], filled once by [loadData]. *)
Variable TALENT_COSTS : list TalentStep.

(** One turn of the loop over TALENT_COSTS. *)
Definition talentStep (from to : number) (out : TalentCost) (step : TalentStep)
  : TalentCost :=
  if js_ge (step_from step) from && js_le (step_to step) to
  then mkTalentCost
         (js_add (tc_mora out) (js_or (step_mora step) (Num 0)))
         (js_add (tc_crown out) (js_or (step_crown step) (Num 0)))
         (mkBooks
            (js_add (low (tc_books out)) (js_or (book_low step) (Num 0)))
            (js_add (mid (tc_books out)) (js_or (book_mid step) (Num 0)))
            (js_add (high (tc_books out)) (js_or (book_high step) (Num 0))))
  else out.

Definition calcTalentCost (from to : number) : TalentCost :=
  if js_le to from then zeroTalentCost
  else fold_left (talentStep from to) TALENT_COSTS zeroTalentCost.

Definition calcCharacterCost (s : Entry) : CharacterCost :=
  let lvl := calcLevelCost (levelCurrent s) (levelTarget s) in
  let tNA := calcTalentCost (naCurrent s) (naTarget s) in
  let tSK := calcTalentCost (skillCurrent s) (skillTarget s) in
  let tBR := calcTalentCost (burstCurrent s) (burstTarget s) in
  let or0 x := js_or x (Num 0) in
  let books :=
    mkBooks
      (js_add (js_add (or0 (low (tc_books tNA))) (or0 (low (tc_books tSK))))
              (or0 (low (tc_books tBR))))
      (js_add (js_add (or0 (mid (tc_books tNA))) (or0 (mid (tc_books tSK))))
              (or0 (mid (tc_books tBR))))
      (js_add (js_add (or0 (high (tc_books tNA))) (or0 (high (tc_books tSK))))
              (or0 (high (tc_books tBR)))) in
  let crown :=
    js_add (js_add (or0 (tc_crown tNA)) (or0 (tc_crown tSK)))
           (or0 (tc_crown tBR)) in
  mkCharacterCost
    (js_add (js_add (js_add (lc_mora lvl) (tc_mora tNA)) (tc_mora tSK))
            (tc_mora tBR))
    (lc_xp lvl) (lc_hero lvl) books crown.

(** *** 9) Totals (overall + series-by-tier) *)

Definition zeroGlobalSums : GlobalSums :=
  mkGlobalSums (Num 0) (Num 0) (Num 0) zeroBooks (Num 0).

(** The template string [`${key}@@${name_kr}@@${it.region||''}`]. *)
Definition seriesKey (b : Book) (rgn : propValue) : string :=
  (key b ++ "@@" ++ name_kr b ++ "@@"
   ++ valueText (or_value (Some rgn) (Text "")))%string.

(** The bucket created on the first encounter of a series key. *)
Definition newSeriesTotals (it : Entry) (b : Book) : SeriesTotals :=
  mkSeriesTotals (key b) (name_kr b) (or_value (Some (region it)) (Text ""))
    (mkSeriesSums (Num 0) (Num 0) (Num 0))
    (mkSeriesIcons (tier_image (tier_low (tiers b)))
                   (tier_image (tier_mid (tiers b)))
                   (tier_image (tier_high (tiers b)))).

(** The three [+=] on [seriesTotals[sKey].sums]. *)
Definition addSeriesBooks (c : CharacterCost) (st : SeriesTotals)
  : SeriesTotals :=
  mkSeriesTotals (st_key st) (nameKr st) (st_region st)
    (mkSeriesSums
       (js_add (teachings (sums st)) (js_or (low (cc_books c)) (Num 0)))
       (js_add (guide (sums st)) (js_or (mid (cc_books c)) (Num 0)))
       (js_add (philosophies (sums st)) (js_or (high (cc_books c)) (Num 0))))
    (icons st).

(** The seven [+=] on [sum]. *)
Definition addGlobal (sum : GlobalSums) (c : CharacterCost) : GlobalSums :=
  mkGlobalSums
    (js_add (sum_mora sum) (cc_mora c))
    (js_add (sum_xp sum) (cc_xp c))
    (js_add (sum_hero sum) (cc_heroBooks c))
    (mkBooks
       (js_add (low (sum_books sum)) (js_or (low (cc_books c)) (Num 0)))
       (js_add (mid (sum_books sum)) (js_or (mid (cc_books c)) (Num 0)))
       (js_add (high (sum_books sum)) (js_or (high (cc_books c)) (Num 0))))
    (js_add (sum_crown sum) (js_or (cc_crown c) (Num 0))).

(** The body of [for (const it of appState.list)].  The object
    [seriesTotals] is a finite map over its own keys; a key of the loop
    always contains [@@], so it is never a name that a JavaScript object
    inherits. *)
Definition totalsStep (acc : GlobalSums * gmap string SeriesTotals) (it : Entry)
  : GlobalSums * gmap string SeriesTotals :=
  let c := calcCharacterCost it in
  let sum := addGlobal (fst acc) c in
  let seriesTotals := snd acc in
  match talent_book it with
  | Some b =>
      let sKey := seriesKey b (region it) in
      let created :=
        match seriesTotals !! sKey with
        | Some _ => seriesTotals
        | None => <[sKey := newSeriesTotals it b]> seriesTotals
        end in
      (sum, alter (addSeriesBooks c) sKey created)
  | None => (sum, seriesTotals)
  end.

(** refreshTotals, on the working list [appState.list]: the sums and the
    series object it hands to the rendering code. *)
Definition refreshTotals (list : list Entry)
  : GlobalSums * gmap string SeriesTotals :=
  fold_left totalsStep list (zeroGlobalSums, ∅).

End Calculators.

(** ** 2) Day/Region normalization & series mapping *)

Local Open Scope string_scope.

(** The own properties of the two alias tables.  [loadData] reads them with
    [getProp], which also finds what the object literals inherit. *)
Definition DAY_ALIAS : gmap string string :=
  list_to_map
    [ ("mon", "mon"); ("monday", "mon"); ("m", "mon");
      ("tue", "tue"); ("tuesday", "tue"); ("t", "tue");
      ("wed", "wed"); ("wednesday", "wed"); ("wen", "wed"); ("w", "wed");
      ("thu", "thu"); ("thursday", "thu"); ("th", "thu");
      ("fri", "fri"); ("friday", "fri"); ("f", "fri");
      ("sat", "sat"); ("saturday", "sat"); ("s", "sat");
      ("sun", "sun"); ("sunday", "sun") ].

Definition REGION_ALIAS : gmap string string :=
  list_to_map
    [ ("mond", "mond"); ("mondstadt", "mond");
      ("liyue", "liyue");
      ("inazma", "inazuma"); ("inazuma", "inazuma");
      ("sumeru", "sumeru");
      ("fontaine", "fontaine");
      ("natlan", "natlan") ].

(** A leaf [{ key, name_kr }] of TALENT_BOOKS. *)
Record SeriesEntry : Set := mkSeriesEntry {
  series_key : string;
  series_name_kr : string
}.

Definition seriesOfRegion (mon tue wed : SeriesEntry)
  : gmap string SeriesEntry :=
  list_to_map [ ("mon", mon); ("tue", tue); ("wed", wed) ].

(** Region × Day → Series key + label *)
Definition TALENT_BOOKS : gmap string (gmap string SeriesEntry) :=
  list_to_map
    [ ("mond", seriesOfRegion (mkSeriesEntry "freedom" "자유")
                              (mkSeriesEntry "resistance" "투쟁")
                              (mkSeriesEntry "ballad" "시"));
      ("liyue", seriesOfRegion (mkSeriesEntry "prosperity" "번영")
                               (mkSeriesEntry "diligence" "근면")
                               (mkSeriesEntry "gold" "황금"));
      ("inazuma", seriesOfRegion (mkSeriesEntry "transience" "부세")
                                 (mkSeriesEntry "elegance" "풍아")
                                 (mkSeriesEntry "light" "천광"));
      ("sumeru", seriesOfRegion (mkSeriesEntry "admonition" "훈계")
                                (mkSeriesEntry "ingenuity" "창의")
                                (mkSeriesEntry "praxis" "실천"));
      ("fontaine", seriesOfRegion (mkSeriesEntry "equity" "공정")
                                  (mkSeriesEntry "judgment" "심판")
                                  (mkSeriesEntry "order" "질서"));
      ("natlan", seriesOfRegion (mkSeriesEntry "conflict" "(예시1)")
                                (mkSeriesEntry "war" "(예시2)")
                                (mkSeriesEntry "rule" "(예시3)")) ].

(** Icon path rules *)
Definition IMAGE_SERIES (rgn seriesKey : string) : string :=
  "images/books/" ++ rgn ++ "_" ++ seriesKey ++ ".png".

Definition IMAGE_SERIES_TIER (rgn seriesKey tierKey : string) : string :=
  "images/books/" ++ rgn ++ "_" ++ seriesKey ++ "_" ++ tierKey ++ ".png".

(** *** String.prototype.trim and toLowerCase, on ASCII

    White space is TAB, LF, VT, FF, CR and SP; letters are A-Z.  Unicode
    white space and letters beyond ASCII are left as they are. *)

Definition isWhiteSpace (c : ascii) : bool :=
  let n := N_of_ascii c in
  (N.leb 9 n && N.leb n 13) || N.eqb n 32.

Fixpoint trimStart (s : string) : string :=
  match s with
  | EmptyString => EmptyString
  | String c s' => if isWhiteSpace c then trimStart s' else s
  end.

Fixpoint trimEnd (s : string) : string :=
  match s with
  | EmptyString => EmptyString
  | String c s' =>
      match trimEnd s' with
      | EmptyString => if isWhiteSpace c then EmptyString else String c EmptyString
      | t => String c t
      end
  end.

Definition trim (s : string) : string := trimEnd (trimStart s).

Definition lowerChar (c : ascii) : ascii :=
  let n := N_of_ascii c in
  if N.leb 65 n && N.leb n 90 then ascii_of_N (n + 32) else c.

Fixpoint toLowerCase (s : string) : string :=
  match s with
  | EmptyString => EmptyString
  | String c s' => String (lowerChar c) (toLowerCase s')
  end.

(** The fields [region], [day] and [talent_book] of a normalized character. *)
Record Character : Set := mkCharacter {
  ch_region : propValue;
  ch_day : propValue;
  ch_talent_book : option Book
}.

(** The series part of the callback of [rawChars.map] in [loadData].  The
    arguments are [c.region] and [c.day]: a string, or [None] when the
    field is missing or null.  [TALENT_BOOKS[region]] and
    [TALENT_BOOKS[region][day]] read the text of the value as the key; that
    text is never a name inherited from Object.prototype
    ([series_key_not_inherited]). *)
Definition resolveSeries (c_region c_day : option string) : Character :=
  let regionRaw := toLowerCase (trim (or_str c_region "")) in
  let dayRaw := toLowerCase (trim (or_str c_day "")) in
  let rgn :=
    or_value (getProp REGION_ALIAS regionRaw)
             (or_value (Some (Text regionRaw)) (Text "")) in
  let day :=
    or_value (getProp DAY_ALIAS dayRaw)
             (or_value (Some (Text dayRaw)) (Text "")) in
  let book :=
    if truthy_value rgn && truthy_value day
    then
      match TALENT_BOOKS !! valueText rgn with
      | Some days =>
          match days !! valueText day with
          | Some se =>
              let k := series_key se in
              Some (mkBook k (series_name_kr se)
                      (IMAGE_SERIES (valueText rgn) k)
                      (mkTiers
                         (mkTier "teachings" "가르침"
                                 (IMAGE_SERIES_TIER (valueText rgn) k
                                                    "teachings"))
                         (mkTier "guide" "인도"
                                 (IMAGE_SERIES_TIER (valueText rgn) k "guide"))
                         (mkTier "philosophies" "철학"
                                 (IMAGE_SERIES_TIER (valueText rgn) k
                                                    "philosophies"))))
          | None => None
          end
      | None => None
      end
    else None in
  mkCharacter rgn day book.

(** ** Talent step costs: the normalization of book_cost.json *)

(** A field of a raw row: missing, or a JSON scalar. *)
Inductive jsval : Set :=
| JUndefined
| JNull
| JBool (b : bool)
| JNumber (n : number)
| JString (s : string).

Record RawStep : Set := mkRawStep {
  raw_from : jsval;
  raw_to : jsval;
  raw_book_low : jsval;
  raw_book_mid : jsval;
  raw_book_high : jsval;
  raw_mora : jsval;
  raw_crown : jsval
}.

Definition truthy (v : jsval) : bool :=
  match v with
  | JUndefined | JNull => false
  | JBool b => b
  | JNumber n => truthy_num n
  | JString s => negb (String.eqb s "")
  end.

(** [v || d] *)
Definition val_or (v d : jsval) : jsval := if truthy v then v else d.

Section Normalize.

(** The conversion of a string to a number by unary plus, a built-in of
    the language. *)
Variable StringToNumber : string -> number.

(** Unary plus. *)
Definition ToNumber (v : jsval) : number :=
  match v with
  | JUndefined => NaN
  | JNull => Num 0
  | JBool b => if b then Num 1 else Num 0
  | JNumber n => n
  | JString s => StringToNumber s
  end.

(** The callback of [(bookCost||[]).map]. *)
Definition normalizeStep (r : RawStep) : TalentStep :=
  let zero := JNumber (Num 0) in
  mkStep (ToNumber (raw_from r)) (ToNumber (raw_to r))
         (ToNumber (val_or (raw_book_low r) zero))
         (ToNumber (val_or (raw_book_mid r) zero))
         (ToNumber (val_or (raw_book_high r) zero))
         (ToNumber (val_or (raw_mora r) zero))
         (ToNumber (val_or (raw_crown r) zero)).

(** The assignment to TALENT_COSTS; [None] is a null [bookCost]. *)
Definition loadTalentCosts (bookCost : option (list RawStep))
  : list TalentStep :=
  map normalizeStep (default [] bookCost).

End Normalize.

(** The built-in conversion on the strings that spell a decimal integer:
    optional white space, an optional sign, decimal digits.  The empty
    string (after trimming) is 0; a string with any other character is not
    a numeral of this form. *)
Definition digitValue (c : ascii) : option Z :=
  let n := N_of_ascii c in
  if N.leb 48 n && N.leb n 57 then Some (Z.of_N n - 48)%Z else None.

Fixpoint digitsValue (s : string) (acc : Z) : option Z :=
  match s with
  | EmptyString => Some acc
  | String c s' =>
      match digitValue c with
      | Some d => digitsValue s' (10 * acc + d)%Z
      | None => None
      end
  end.

Definition unsignedDecimal (s : string) : option Z :=
  match s with
  | EmptyString => None
  | _ => digitsValue s 0%Z
  end.

Definition decimalToNumber (s : string) : number :=
  match trim s with
  | EmptyString => Num 0
  | String "+" ds => match unsignedDecimal ds with Some z => Num z | None => NaN end
  | String "-" ds => match unsignedDecimal ds with Some z => Num (- z) | None => NaN end
  | ds => match unsignedDecimal ds with Some z => Num z | None => NaN end
  end.

Local Close Scope string_scope.

(** ** 5) Data load & normalize: the characters *)

Local Open Scope string_scope.

(** A record of characters.json, as the generator writes it: [id] and
    [name_en] are strings; the other fields are a string, or [None] when
    the field is missing or null. *)
Record RawCharacter : Set := mkRawCharacter {
  raw_id : string;
  raw_name_kr : option string;
  raw_name_en : string;
  raw_element : option string;
  raw_weapon : option string;
  raw_image : option string;
  raw_region : option string;
  raw_day : option string
}.

(** An element of CHARACTERS; [nc_series] holds [region], [day] and
    [talent_book]. *)
Record NormalizedCharacter : Set := mkNormalizedCharacter {
  nc_id : string;
  nc_name : string;
  nc_name_en : string;
  nc_element : string;
  nc_weapon : string;
  nc_image : string;
  nc_series : Character
}.

(** The callback of [rawChars.map]. *)
Definition normalizeCharacter (c : RawCharacter) : NormalizedCharacter :=
  mkNormalizedCharacter
    (raw_id c)
    (match raw_name_kr c with
     | Some kr =>
         if negb (String.eqb kr "") && negb (String.eqb (trim kr) "")
         then kr else raw_name_en c
     | None => raw_name_en c
     end)
    (or_str (Some (raw_name_en c)) "")
    (or_str (raw_element c) "")
    (or_str (raw_weapon c) "")
    (or_str (raw_image c) "images/placeholder.png")
    (resolveSeries (raw_region c) (raw_day c)).

(** [init]: the two tables after [loadData], and the empty tables of the
    catch branch when the fetch fails ([None]).  The string conversion of
    the rows is the parameter of [loadTalentCosts]. *)
Definition init (StringToNumber : string -> number)
           (fetched : option (list RawCharacter * option (list RawStep)))
  : list NormalizedCharacter * list TalentStep :=
  match fetched with
  | Some (rawChars, bookCost) =>
      (map normalizeCharacter rawChars, loadTalentCosts StringToNumber bookCost)
  | None => ([], [])
  end.

(** ** 10) Events *)

(** [appState.list] and the text of the search box. *)
Record AppState : Set := mkAppState {
  app_list : list Entry;
  search_value : string
}.

(** What a click on the add button did: nothing (blank keyword), the alert
    of an unknown character, the alert of a character already listed, or
    the push of a new entry. *)
Inductive AddOutcome : Set :=
| AddIgnored
| AddNotFound
| AddDuplicate
| AddDone.

(** The predicate of [CHARACTERS.find]. *)
Definition matchesKeyword (keyword : string) (c : NormalizedCharacter) : bool :=
  (negb (String.eqb (nc_name c) "")
   && String.eqb (toLowerCase (nc_name c)) (toLowerCase keyword))
  || (negb (String.eqb (nc_name_en c) "")
      && String.eqb (toLowerCase (nc_name_en c)) (toLowerCase keyword)).

(** The decimal digits of the clock value [Date.now()], a non-negative
    integer of milliseconds. *)
Definition decimal (n : N) : string := NilEmpty.string_of_uint (N.to_uint n).

(** The object pushed on [appState.list]. *)
Definition newEntry (found : NormalizedCharacter) (now : N) : Entry :=
  mkEntry (nc_id found ++ "-" ++ decimal now)
          (nc_id found) (nc_name found) (nc_element found) (nc_image found)
          (Num 1) (Num 90) (Num 1) (Num 6) (Num 1) (Num 6) (Num 1) (Num 6)
          (ch_talent_book (nc_series found)) (ch_region (nc_series found)).

(** The click handler of [btnAdd]; [now] is what [Date.now()] returns. *)
Definition btnAddClick (CHARACTERS : list NormalizedCharacter) (now : N)
           (st : AppState) : AddOutcome * AppState :=
  let keyword := trim (or_str (Some (search_value st)) "") in
  if String.eqb keyword "" then (AddIgnored, st)
  else
    match List.find (matchesKeyword keyword) CHARACTERS with
    | None => (AddNotFound, st)
    | Some found =>
        if existsb (fun x => String.eqb (item_id x) (nc_id found)) (app_list st)
        then (AddDuplicate, st)
        else (AddDone, mkAppState (app_list st ++ [newEntry found now]) "")
    end.

(** The click handler of a card's remove button, for the card of the item
    with uid [u]. *)
Definition removeClick (u : string) (st : AppState) : AppState :=
  mkAppState (List.filter (fun x => negb (String.eqb (uid x) u)) (app_list st))
             (search_value st).

(** The click handler of [btnClear]; [confirmed] is the answer to the
    confirm dialog. *)
Definition btnClearClick (confirmed : bool) (st : AppState) : AppState :=
  if negb confirmed then st else mkAppState [] (search_value st).

(** *** applyIcon: an image with fallback paths

    The state is the closure of [img.onerror]: the list, the counter [i]
    and the value last assigned to [img.src] ([None] is the undefined that
    [list[0]] gives on an empty array). *)
Record IconState : Set := mkIconState {
  icon_list : list string;
  icon_i : nat;
  icon_src : option string
}.

(** [applyIcon(img, pathOrArray)]: a single path ([inl]) or an array. *)
Definition applyIcon (pathOrArray : string + list string) : IconState :=
  let list := match pathOrArray with inl p => [p] | inr l => l end in
  mkIconState list 0 (list !! 0%nat).

(** One run of [img.onerror]. *)
Definition onerror (st : IconState) : IconState :=
  let i := S (icon_i st) in
  if (i <? length (icon_list st))%nat
  then mkIconState (icon_list st) i (icon_list st !! i)
  else mkIconState (icon_list st) i (icon_src st).

Definition ICON_HEROWIT : list string :=
  [ "images/icons/herowit.png"; "images/icons/hero_wit.png";
    "images/icons/exp_book_purple.png"; "images/icons/exp_book.png" ].

(** ** genshin_characters_generator.js: makeId

    [\w] is A-Z, a-z, 0-9 and underscore; [\s] is the white space of
    [isWhiteSpace].  The Unicode decomposition [normalize('NFKD')] is a
    parameter; the regular expressions are modelled on the ASCII strings
    it leaves unchanged. *)

Definition isWordChar (c : ascii) : bool :=
  let n := N_of_ascii c in
  (N.leb 48 n && N.leb n 57) || (N.leb 65 n && N.leb n 90)
  || (N.leb 97 n && N.leb n 122) || N.eqb n 95.

(** A character that [/[^\w\s-]/g] leaves in place. *)
Definition isIdChar (c : ascii) : bool :=
  isWordChar c || isWhiteSpace c || N.eqb (N_of_ascii c) 45.

(** [replace(/[^\w\s-]/g, '')] *)
Fixpoint stripNonId (s : string) : string :=
  match s with
  | EmptyString => EmptyString
  | String c s' => if isIdChar c then String c (stripNonId s') else stripNonId s'
  end.

(** [replace(/\s+/g, '_')]; [inRun] says that the previous character was
    white space, whose run already gave its underscore. *)
Fixpoint underscoreRuns (inRun : bool) (s : string) : string :=
  match s with
  | EmptyString => EmptyString
  | String c s' =>
      if isWhiteSpace c
      then if inRun then underscoreRuns true s'
           else String "_" (underscoreRuns true s')
      else String c (underscoreRuns false s')
  end.

Definition makeId (normalizeNFKD : string -> string) (name : string) : string :=
  underscoreRuns false (toLowerCase (trim (stripNonId (normalizeNFKD name)))).

Local Close Scope string_scope.

(** ** genshin_characters_generator.js: the candidate names

    The loop over the anchors of the list page.  The input is the trimmed
    text of each anchor, in document order.  The test
    [NAME_REGEX.test(text) && text.length>2 && text.length<30] and the
    Unicode [toLowerCase] are parameters.  [nameSet] is a Map: a list of
    pairs in insertion order. *)

(** The words of the inline array of junk keys. *)
Definition junkWords : list string :=
  [ "all characters"; "characters"; "genshin impact"; "guide";
    "tier list" ]%string.

Section CandidateNames.

Variable nameTest : string -> bool.
Variable lowerCase : string -> string.

(** The callback of [$('a').each], on the Map so far. *)
Definition collectStep (nameSet : list (string * string)) (text : string)
  : list (string * string) :=
  if negb (String.eqb text "") && nameTest text
  then
    let key := lowerCase text in
    if existsb (String.eqb key) junkWords then nameSet
    else if existsb (fun kv => String.eqb (fst kv) key) nameSet then nameSet
    else nameSet ++ [(key, text)]
  else nameSet.

(** [Array.from(nameSet.values())] after the loop. *)
Definition candidateNames (texts : list string) : list string :=
  map snd (fold_left collectStep texts []).

End CandidateNames.

(** * Notions of the specification *)

(** The running sum [acc += f x] over a list, from [init]. *)
Definition sumFrom {A : Type} (f : A -> number) (l : list A) (init : number)
  : number :=
  fold_left (fun acc x => js_add acc (f x)) l init.

Definition sumOf {A : Type} (f : A -> number) (l : list A) : number :=
  sumFrom f l (Num 0).

(** The largest anchor at most [curr], and 1 when there is none. *)
Definition is_clipped_floor (curr cf : Z) : Prop :=
  (In cf LEVEL_ANCHORS /\ cf <= curr /\
   forall a, In a LEVEL_ANCHORS -> a <= curr -> a <= cf)
  \/ ((forall a, In a LEVEL_ANCHORS -> ~ a <= curr) /\ cf = 1).

(** The smallest anchor at least [target], and 90 when there is none. *)
Definition is_clipped_ceiling (target cc : Z) : Prop :=
  (In cc LEVEL_ANCHORS /\ target <= cc /\
   forall a, In a LEVEL_ANCHORS -> target <= a -> cc <= a)
  \/ ((forall a, In a LEVEL_ANCHORS -> ~ target <= a) /\ cc = 90).

(** [to_level > clippedFloor AND from_level < clippedCeiling] *)
Definition overlaps (cf cc : Z) (row : LevelCostSegment) : bool :=
  (cf <? to_level row) && (from_level row <? cc).

(** The componentwise sum of the totals of a list of segments. *)
Definition segmentSum (l : list LevelCostSegment) : LevelCost :=
  mkLevelCost (sumOf (fun r => Num (total_xp r)) l)
              (sumOf (fun r => Num (total_mora r)) l)
              (sumOf (fun r => Num (hero_wit r)) l).

Definition segmentTotals (row : LevelCostSegment) : LevelCost :=
  mkLevelCost (Num (total_xp row)) (Num (total_mora row)) (Num (hero_wit row)).

Definition addLevelCost (x y : LevelCost) : LevelCost :=
  mkLevelCost (js_add (lc_xp x) (lc_xp y))
              (js_add (lc_mora x) (lc_mora y))
              (js_add (lc_hero x) (lc_hero y)).

(** [step.from >= from AND step.to <= to] *)
Definition contained (from to : number) (step : TalentStep) : bool :=
  js_ge (step_from step) from && js_le (step_to step) to.

(** A step that shares part of the range [from, to] without lying inside. *)
Definition partly_overlaps (from to : number) (step : TalentStep) : bool :=
  js_lt (step_from step) to && js_gt (step_to step) from
  && negb (contained from to step).

Definition or0 (x : number) : number := js_or x (Num 0).

(** The componentwise sum of the costs of a list of steps. *)
Definition stepSum (l : list TalentStep) : TalentCost :=
  mkTalentCost (sumOf (fun s => or0 (step_mora s)) l)
               (sumOf (fun s => or0 (step_crown s)) l)
               (mkBooks (sumOf (fun s => or0 (book_low s)) l)
                        (sumOf (fun s => or0 (book_mid s)) l)
                        (sumOf (fun s => or0 (book_high s)) l)).

(** The entries that fall in the bucket [k] of the series object. *)
Definition inSeries (k : string) (it : Entry) : bool :=
  match talent_book it with
  | Some b => String.eqb (seriesKey b (region it)) k
  | None => false
  end.

(** The five cost fields of a row, raw and normalized. *)
Definition costFields : list ((RawStep -> jsval) * (TalentStep -> number)) :=
  [ (raw_book_low, book_low); (raw_book_mid, book_mid);
    (raw_book_high, book_high); (raw_mora, step_mora);
    (raw_crown, step_crown) ].

(** The two range fields of a row, raw and normalized. *)
Definition rangeFields : list ((RawStep -> jsval) * (TalentStep -> number)) :=
  [ (raw_from, step_from); (raw_to, step_to) ].

(** The integer a number stands for (0 for NaN). *)
Definition num_val (x : number) : Z :=
  match x with NaN => 0 | Num z => z end.

(** The sum of the integers [f x] over a list. *)
Definition sumZ {A : Type} (f : A -> Z) (l : list A) : Z :=
  fold_right (fun x acc => f x + acc) 0 l.

(** [from_level >= a AND to_level <= b]: the segment lies inside [a, b]. *)
Definition inside (a b : Z) (row : LevelCostSegment) : bool :=
  (a <=? from_level row) && (to_level row <=? b).

(** Componentwise order on level costs. *)
Definition levelCost_le (x y : LevelCost) : Prop :=
  num_val (lc_xp x) <= num_val (lc_xp y)
  /\ num_val (lc_mora x) <= num_val (lc_mora y)
  /\ num_val (lc_hero x) <= num_val (lc_hero y).

Definition addBooks (x y : Books) : Books :=
  mkBooks (js_add (low x) (low y)) (js_add (mid x) (mid y))
          (js_add (high x) (high y)).

Definition addTalentCost (x y : TalentCost) : TalentCost :=
  mkTalentCost (js_add (tc_mora x) (tc_mora y))
               (js_add (tc_crown x) (tc_crown y))
               (addBooks (tc_books x) (tc_books y)).

(** A row that goes up, from an integer rank to a higher one. *)
Definition rising_step (s : TalentStep) : Prop :=
  exists f t, step_from s = Num f /\ step_to s = Num t /\ f < t.

(** A row that does not cross the rank [b]. *)
Definition clear_of (b : Z) (s : TalentStep) : Prop :=
  js_le (step_to s) (Num b) = true \/ js_ge (step_from s) (Num b) = true.

(** Every component of a record is a number. *)
Definition books_num (b : Books) : Prop :=
  is_num (low b) /\ is_num (mid b) /\ is_num (high b).

(** A cost field that is not negative: NaN, which the [||0] guards read as
    0, or an integer from 0 up. *)
Definition not_negative (x : number) : Prop :=
  match x with NaN => True | Num z => 0 <= z end.

(** A number that is neither NaN nor negative. *)
Definition nonneg_num (x : number) : Prop :=
  match x with NaN => False | Num z => 0 <= z end.

(** No cost field of the talent table is negative. *)
Definition costs_not_negative (T : list TalentStep) : Prop :=
  forall s, In s T ->
    not_negative (step_mora s) /\ not_negative (step_crown s)
    /\ not_negative (book_low s) /\ not_negative (book_mid s)
    /\ not_negative (book_high s).

Definition books_nonneg (b : Books) : Prop :=
  nonneg_num (low b) /\ nonneg_num (mid b) /\ nonneg_num (high b).

Definition globalSums_nonneg (g : GlobalSums) : Prop :=
  nonneg_num (sum_mora g) /\ nonneg_num (sum_xp g) /\ nonneg_num (sum_hero g)
  /\ books_nonneg (sum_books g) /\ nonneg_num (sum_crown g).

Definition seriesSums_nonneg (s : SeriesSums) : Prop :=
  nonneg_num (teachings s) /\ nonneg_num (guide s)
  /\ nonneg_num (philosophies s).

(** A sum that doubles compute without rounding, in any order: every term
    is an integer from 0 up and the total is at most 2^53. *)
Definition exact_sum {A : Type} (f : A -> number) (l : list A) : Prop :=
  (forall x, In x l -> nonneg_num (f x))
  /\ sumZ (fun x => num_val (f x)) l <= 2 ^ 53.

(** The five cost fields of the rows of [l], read through [||0], have
    such sums. *)
Definition exact_costs (l : list TalentStep) : Prop :=
  exact_sum (fun s => or0 (step_mora s)) l
  /\ exact_sum (fun s => or0 (step_crown s)) l
  /\ exact_sum (fun s => or0 (book_low s)) l
  /\ exact_sum (fun s => or0 (book_mid s)) l
  /\ exact_sum (fun s => or0 (book_high s)) l.

(** The seven terms that refreshTotals adds for an entry have such sums
    over the list [l]; [cost] is calcCharacterCost on the loaded table. *)
Definition exact_totals (cost : Entry -> CharacterCost) (l : list Entry)
  : Prop :=
  exact_sum (fun it => cc_mora (cost it)) l
  /\ exact_sum (fun it => cc_xp (cost it)) l
  /\ exact_sum (fun it => cc_heroBooks (cost it)) l
  /\ exact_sum (fun it => or0 (low (cc_books (cost it)))) l
  /\ exact_sum (fun it => or0 (mid (cc_books (cost it)))) l
  /\ exact_sum (fun it => or0 (high (cc_books (cost it)))) l
  /\ exact_sum (fun it => or0 (cc_crown (cost it))) l.

(** The working lists that the handlers build: the ids are pairwise
    distinct and every uid is the id, a dash and the digits of a clock
    value. *)
Definition stamped (e : Entry) : Prop :=
  exists now : N, uid e = (item_id e ++ "-" ++ decimal now)%string.

Definition roster_ok (l : list Entry) : Prop :=
  List.NoDup (map item_id l) /\ Forall stamped l.

(** [TABLE[raw] || raw || '']: the alias step of [loadData]. *)
Definition aliasOf (table : gmap string string) (raw : string) : propValue :=
  or_value (getProp table raw) (or_value (Some (Text raw)) (Text "")).

(** The book that [loadData] attaches to a normalized region and day. *)
Definition seriesBook (rgn day : propValue) : option Book :=
  if truthy_value rgn && truthy_value day
  then
    match TALENT_BOOKS !! valueText rgn with
    | Some days =>
        match days !! valueText day with
        | Some se =>
            let k := series_key se in
            Some (mkBook k (series_name_kr se)
                    (IMAGE_SERIES (valueText rgn) k)
                    (mkTiers
                       (mkTier "teachings" "가르침"
                               (IMAGE_SERIES_TIER (valueText rgn) k
                                                  "teachings"))
                       (mkTier "guide" "인도"
                               (IMAGE_SERIES_TIER (valueText rgn) k "guide"))
                       (mkTier "philosophies" "철학"
                               (IMAGE_SERIES_TIER (valueText rgn) k
                                                  "philosophies"))))
        | None => None
        end
    | None => None
    end
  else None.

(** A name that the trimmed keyword can never equal: empty, or starting
    with white space. *)
Definition ledByWhiteSpace (s : string) : Prop :=
  match s with
  | EmptyString => True
  | String c _ => isWhiteSpace c = true
  end.

(** A string that does not start with white space. *)
Definition cleanStart (s : string) : Prop :=
  match s with
  | EmptyString => True
  | String c _ => isWhiteSpace c = false
  end.

(** A string of 7-bit characters. *)
Fixpoint isAscii (s : string) : bool :=
  match s with
  | EmptyString => true
  | String c s' => N.ltb (N_of_ascii c) 128 && isAscii s'
  end.

(** A character of an id: a-z, 0-9, underscore or hyphen. *)
Definition isSlugChar (c : ascii) : bool :=
  let n := N_of_ascii c in
  (N.leb 48 n && N.leb n 57) || (N.leb 97 n && N.leb n 122)
  || N.eqb n 95 || N.eqb n 45.

Fixpoint allChars (p : ascii -> bool) (s : string) : bool :=
  match s with
  | EmptyString => true
  | String c s' => p c && allChars p s'
  end.

(** The names and English names of the characters are ASCII strings. *)
Definition asciiNames (CHARACTERS : list NormalizedCharacter) : Prop :=
  forall c, In c CHARACTERS ->
    isAscii (nc_name c) = true /\ isAscii (nc_name_en c) = true.

(** * Numbers *)

Lemma js_or_is_num (x : number) : is_num x -> js_or x (Num 0) = x.
Proof.
  destruct x as [|z]; [contradiction|]. intros _. unfold js_or. simpl.
  destruct (Z.eqb_spec z 0) as [->|]; reflexivity.
Qed.

Lemma or0_is_num (x : number) : is_num (or0 x).
Proof.
  unfold or0, js_or. destruct x as [|z]; simpl; [exact I|].
  destruct (z =? 0); exact I.
Qed.

(** [0 + x] and [x + 0] are [x], NaN included. *)
Lemma js_add_0_l (x : number) : js_add (Num 0) x = x.
Proof. now destruct x. Qed.

Lemma js_add_0_r (x : number) : js_add x (Num 0) = x.
Proof. destruct x as [|z]; cbn; [reflexivity | now rewrite Z.add_0_r]. Qed.

Lemma nonneg_is_num (x : number) : nonneg_num x -> is_num x.
Proof. now destruct x. Qed.

Lemma nonneg_not_negative (x : number) : nonneg_num x -> not_negative x.
Proof. now destruct x. Qed.

(** A guarded field that is not negative is a number from 0 up. *)
Lemma or0_nonneg (x : number) : not_negative x -> nonneg_num (or0 x).
Proof.
  unfold or0, js_or. destruct x as [|z]; cbn; [lia|].
  destruct (z =? 0); cbn; lia.
Qed.

Lemma js_add_nonneg (x y : number) :
  nonneg_num x -> nonneg_num y -> nonneg_num (js_add x y).
Proof. destruct x, y; cbn; lia. Qed.

Lemma sumFrom_nonneg {A : Type} (f : A -> number) (l : list A) :
  (forall x, In x l -> nonneg_num (f x)) ->
  forall init, nonneg_num init -> nonneg_num (sumFrom f l init).
Proof.
  unfold sumFrom.
  induction l as [|x l IH]; intros Hf init Hi; cbn [fold_left]; [exact Hi|].
  apply IH; [intros y Hy; apply Hf; now right|].
  apply js_add_nonneg; [exact Hi | apply Hf; now left].
Qed.

(** Where no term is NaN the guard [||0] changes no sum. *)
Lemma sumFrom_guard {A : Type} (f : A -> number) (l : list A) :
  (forall x, In x l -> is_num (f x)) ->
  forall init, sumFrom (fun x => or0 (f x)) l init = sumFrom f l init.
Proof.
  unfold sumFrom.
  induction l as [|x l IH]; intros Hf init; cbn [fold_left]; [reflexivity|].
  unfold or0 at 2. rewrite (js_or_is_num (f x)) by (apply Hf; now left).
  apply IH. intros y Hy. apply Hf. now right.
Qed.

(** * Level cost *)

Section LevelCostFacts.

(** The floor scan on integers computes an integer. *)
Lemma floorScan_Num (l : list Z) (curr : Z) :
  forall a,
    floorScan l (Num curr) (Num a)
    = Num (fold_left (fun a b => if b <=? curr then b else a) l a).
Proof.
  unfold floorScan. induction l as [|b l IH]; intros a; simpl; [reflexivity|].
  destruct (b <=? curr); apply IH.
Qed.

Lemma ceilScan_Num (l : list Z) (target : Z) :
  forall a,
    ceilScan l (Num target) (Num a)
    = Num (fold_left (fun a b => if b >=? target then Z.min a b else a) l a).
Proof.
  unfold ceilScan. induction l as [|b l IH]; intros a; simpl; [reflexivity|].
  destruct (b >=? target); apply IH.
Qed.

(** On an ascending list the floor scan keeps the start value when no
    element is at most [curr], and ends on the largest such element
    otherwise. *)
Lemma floor_fold_spec (curr : Z) (l : list Z) :
  StronglySorted Z.lt l ->
  forall a,
    let r := fold_left (fun a b => if b <=? curr then b else a) l a in
    (r = a /\ forall b, In b l -> ~ b <= curr)
    \/ (In r l /\ r <= curr /\ forall b, In b l -> b <= curr -> b <= r).
Proof.
  induction 1 as [|x l Hs IH Hx]; intros a; simpl.
  - left. split; [reflexivity | intros b []].
  - rewrite List.Forall_forall in Hx.
    destruct (Z.leb_spec x curr) as [Hle|Hgt].
    + right. destruct (IH x) as [[Hr Hnone]|(Hin & Hrle & Hmax)].
      * rewrite Hr. split; [now left|]. split; [exact Hle|].
        intros b [<-|Hb] Hb'; [lia | now apply Hnone in Hb].
      * split; [now right|]. split; [exact Hrle|].
        intros b [<-|Hb] Hb'; [apply Hx in Hin; lia | now apply Hmax].
    + destruct (IH a) as [[Hr Hnone]|(Hin & Hrle & Hmax)].
      * left. split; [exact Hr|]. intros b [<-|Hb]; [lia | now apply Hnone].
      * right. split; [now right|]. split; [exact Hrle|].
        intros b [<-|Hb] Hb'; [lia | now apply Hmax].
Qed.

(** The ceiling scan ends on the minimum of the start value and of the
    elements at least [target]. *)
Lemma ceil_fold_spec (target : Z) (l : list Z) :
  forall a,
    let r := fold_left (fun a b => if b >=? target then Z.min a b else a) l a in
    r <= a
    /\ (forall b, In b l -> target <= b -> r <= b)
    /\ (r = a \/ (In r l /\ target <= r)).
Proof.
  induction l as [|x l IH]; intros a; simpl.
  - split; [lia|]. split; [intros b [] | now left].
  - rewrite Z.geb_leb. destruct (Z.leb_spec target x) as [Hle|Hgt].
    + destruct (IH (Z.min a x)) as (Hra & Hall & Hor).
      split; [lia|]. split.
      * intros b [<-|Hb] Hb'; [lia | now apply Hall].
      * destruct Hor as [Hr|[Hin Hr]]; [|right; split; [now right | exact Hr]].
        destruct (Z.min_spec a x) as [[_ Hm]|[_ Hm]].
        -- left. now rewrite Hr.
        -- right. rewrite Hr, Hm. split; [now left | exact Hle].
    + destruct (IH a) as (Hra & Hall & Hor).
      split; [exact Hra|]. split.
      * intros b [<-|Hb] Hb'; [lia | now apply Hall].
      * destruct Hor as [Hr|[Hin Hr]]; [now left|].
        right. split; [now right | exact Hr].
Qed.

Lemma LEVEL_ANCHORS_sorted : StronglySorted Z.lt LEVEL_ANCHORS.
Proof.
  unfold LEVEL_ANCHORS.
  repeat (apply SSorted_cons; [|repeat constructor; lia]).
  apply SSorted_nil.
Qed.

Lemma includes_In (l : list Z) (x : Z) : includes l (Num x) = true <-> In x l.
Proof.
  unfold includes. rewrite existsb_exists. split.
  - intros (a & Ha & He). simpl in He. apply Z.eqb_eq in He. now subst.
  - intros Hx. exists x. split; [exact Hx | simpl; apply Z.eqb_refl].
Qed.

(** The constant [c] of calcLevelCost is the clipped floor. *)
Lemma clipFloor_spec (curr : Z) :
  exists cf, clipFloor (Num curr) = Num cf /\ is_clipped_floor curr cf.
Proof.
  unfold clipFloor. destruct (includes LEVEL_ANCHORS (Num curr)) eqn:Hinc.
  - apply includes_In in Hinc. exists curr. split; [reflexivity|].
    left. split; [exact Hinc|]. split; [lia|]. intros; assumption.
  - rewrite floorScan_Num. eexists. split; [reflexivity|].
    destruct (floor_fold_spec curr LEVEL_ANCHORS LEVEL_ANCHORS_sorted 1)
      as [[Hr Hnone]|H].
    + right. split; [exact Hnone | exact Hr].
    + left. exact H.
Qed.

(** The constant [t] of calcLevelCost is the clipped ceiling. *)
Lemma clipCeiling_spec (target : Z) :
  exists cc, clipCeiling (Num target) = Num cc /\ is_clipped_ceiling target cc.
Proof.
  unfold clipCeiling. destruct (includes LEVEL_ANCHORS (Num target)) eqn:Hinc.
  - apply includes_In in Hinc. exists target. split; [reflexivity|].
    left. split; [exact Hinc|]. split; [lia|]. intros; assumption.
  - rewrite ceilScan_Num. eexists. split; [reflexivity|].
    destruct (ceil_fold_spec target LEVEL_ANCHORS 90) as (Hra & Hall & Hor).
    destruct Hor as [Hr|[Hin Hr]].
    + destruct (Z.le_gt_cases target 90) as [Hle|Hgt].
      * left. rewrite Hr. split; [simpl; tauto|]. split; [exact Hle|].
        intros a Ha Hta. rewrite <- Hr. now apply Hall.
      * right. split; [|exact Hr].
        intros a Ha. simpl in Ha.
        repeat (destruct Ha as [<-|Ha]; [lia|]). contradiction.
    + left. split; [exact Hin|]. split; [exact Hr | exact Hall].
Qed.

Lemma is_clipped_floor_unique (curr a b : Z) :
  is_clipped_floor curr a -> is_clipped_floor curr b -> a = b.
Proof.
  intros [(Ha & Hale & Hamax)|[Hna ->]] [(Hb & Hble & Hbmax)|[Hnb ->]].
  - apply Z.le_antisymm; [now apply Hbmax | now apply Hamax].
  - now apply Hnb in Ha.
  - now apply Hna in Hb.
  - reflexivity.
Qed.

Lemma is_clipped_ceiling_unique (target a b : Z) :
  is_clipped_ceiling target a -> is_clipped_ceiling target b -> a = b.
Proof.
  intros [(Ha & Hale & Hamin)|[Hna ->]] [(Hb & Hble & Hbmin)|[Hnb ->]].
  - apply Z.le_antisymm; [now apply Hamin | now apply Hbmin].
  - now apply Hnb in Ha.
  - now apply Hna in Hb.
  - reflexivity.
Qed.

(** The loop over the segments adds the totals of the selected rows, in
    the order of the table. *)
Lemma levelLoop_spec (cf cc : Z) (l : list LevelCostSegment) :
  forall acc,
    fold_left (levelStep (Num cf) (Num cc)) l acc
    = let sel := List.filter (overlaps cf cc) l in
      mkLevelCost (sumFrom (fun r => Num (total_xp r)) sel (lc_xp acc))
                  (sumFrom (fun r => Num (total_mora r)) sel (lc_mora acc))
                  (sumFrom (fun r => Num (hero_wit r)) sel (lc_hero acc)).
Proof.
  induction l as [|row l IH]; intros acc; cbn [fold_left List.filter].
  - now destruct acc.
  - rewrite IH. unfold levelStep. cbn [js_gt js_lt]. rewrite Z.gtb_ltb.
    fold (overlaps cf cc row). destruct (overlaps cf cc row); reflexivity.
Qed.

(** calcLevelCost on an increasing integer range, through the clipped
    anchors. *)
Lemma calcLevelCost_clipped (curr target cf cc : Z) :
  curr < target ->
  is_clipped_floor curr cf -> is_clipped_ceiling target cc ->
  calcLevelCost (Num curr) (Num target)
  = segmentSum (List.filter (overlaps cf cc) LEVEL_COSTS).
Proof.
  intros Hlt Hf Hc. unfold calcLevelCost. simpl js_le.
  destruct (Z.leb_spec target curr) as [Hle|_]; [lia|].
  destruct (clipFloor_spec curr) as (cf' & -> & Hf').
  destruct (clipCeiling_spec target) as (cc' & -> & Hc').
  rewrite (is_clipped_floor_unique _ _ _ Hf' Hf).
  rewrite (is_clipped_ceiling_unique _ _ _ Hc' Hc).
  cbv zeta. rewrite levelLoop_spec. reflexivity.
Qed.

End LevelCostFacts.

Ltac in_cases H :=
  simpl in H; repeat (destruct H as [<-|H]; [|]); try contradiction.

(** Every boundary of a segment is an anchor, so a segment ends above the
    clipped floor exactly when it ends above [curr], and starts below the
    clipped ceiling exactly when it starts below [target]. *)
Lemma LEVEL_COSTS_floor_cut (cf curr : Z) (row : LevelCostSegment) :
  is_clipped_floor curr cf -> In row LEVEL_COSTS ->
  (cf <? to_level row) = (curr <? to_level row).
Proof.
  intros Hf Hrow.
  assert (Hto : In (to_level row) LEVEL_ANCHORS /\ 1 < to_level row)
    by (in_cases Hrow; simpl; split; (tauto || lia)).
  destruct Hto as [Hto Hone].
  destruct (Z.ltb_spec cf (to_level row)) as [H1|H1],
           (Z.ltb_spec curr (to_level row)) as [H2|H2]; try reflexivity;
    exfalso; destruct Hf as [(_ & Hle & Hmax)|[Hnone ->]]; try lia.
  - specialize (Hmax _ Hto H2). lia.
  - exact (Hnone _ Hto H2).
Qed.

Lemma LEVEL_COSTS_ceiling_cut (cc target : Z) (row : LevelCostSegment) :
  is_clipped_ceiling target cc -> In row LEVEL_COSTS ->
  (from_level row <? cc) = (from_level row <? target).
Proof.
  intros Hc Hrow.
  assert (Hfrom : In (from_level row) LEVEL_ANCHORS /\ from_level row < 90)
    by (in_cases Hrow; simpl; split; (tauto || lia)).
  destruct Hfrom as [Hfrom Htop].
  destruct (Z.ltb_spec (from_level row) cc) as [H1|H1],
           (Z.ltb_spec (from_level row) target) as [H2|H2]; try reflexivity;
    exfalso; destruct Hc as [(_ & Hle & Hmin)|[Hnone ->]]; try lia.
  - specialize (Hmin _ Hfrom H2). lia.
  - exact (Hnone _ Hfrom H2).
Qed.

(** calcLevelCost on an increasing integer range charges the segments that
    meet the open range, each in full. *)
Lemma calcLevelCost_meeting (curr target : Z) :
  curr < target ->
  calcLevelCost (Num curr) (Num target)
  = segmentSum (List.filter (overlaps curr target) LEVEL_COSTS).
Proof.
  intros Hlt.
  destruct (clipFloor_spec curr) as (cf & _ & Hf).
  destruct (clipCeiling_spec target) as (cc & _ & Hc).
  rewrite (calcLevelCost_clipped curr target cf cc Hlt Hf Hc).
  f_equal. apply List.filter_ext_in. intros row Hrow. unfold overlaps.
  now rewrite (LEVEL_COSTS_floor_cut cf curr row Hf Hrow),
              (LEVEL_COSTS_ceiling_cut cc target row Hc Hrow).
Qed.

(** Inside one segment the clipped anchors are the ends of the segment. *)
Lemma segment_clipping (row : LevelCostSegment) (curr target : Z) :
  In row LEVEL_COSTS ->
  from_level row <= curr -> curr < target -> target <= to_level row ->
  is_clipped_floor curr (from_level row)
  /\ is_clipped_ceiling target (to_level row)
  /\ List.filter (overlaps (from_level row) (to_level row)) LEVEL_COSTS = [row].
Proof.
  intros Hrow Hfrom Hlt Hto.
  in_cases Hrow; simpl in Hfrom, Hto; simpl from_level; simpl to_level;
    (split; [|split; [|reflexivity]]); left;
    (split; [simpl; tauto|]); (split; [lia|]);
    intros a Ha Hcmp; in_cases Ha; lia.
Qed.

(** C1: for integer levels with target > curr, calcLevelCost(curr, target)
    is the componentwise sum of total_xp, total_mora and hero_wit over
    exactly the segments with to_level > clippedFloor and from_level <
    clippedCeiling, where clippedFloor is the largest anchor <= curr (1 when
    there is none) and clippedCeiling the smallest anchor >= target (90
    when there is none); both clipped anchors exist. *)
Theorem calcLevelCost_overlap_sum (curr target : Z) :
  target > curr ->
  (exists cf cc, is_clipped_floor curr cf /\ is_clipped_ceiling target cc)
  /\ (forall cf cc,
        is_clipped_floor curr cf -> is_clipped_ceiling target cc ->
        calcLevelCost (Num curr) (Num target)
        = segmentSum (List.filter (overlaps cf cc) LEVEL_COSTS)).
Proof.
  intros Hgt. split.
  - destruct (clipFloor_spec curr) as (cf & _ & Hf).
    destruct (clipCeiling_spec target) as (cc & _ & Hc).
    exists cf, cc. split; assumption.
  - intros cf cc Hf Hc. apply calcLevelCost_clipped; [lia | exact Hf | exact Hc].
Qed.

Lemma calcLevelCost_overlap_sum_witness :
  35 > 25
  /\ calcLevelCost (Num 25) (Num 35)
     = segmentSum (List.filter (overlaps 20 40) LEVEL_COSTS).
Proof.
  split; [lia|].
  apply (proj2 (calcLevelCost_overlap_sum 25 35 ltac:(lia)) 20 40).
  - left. split; [simpl; tauto|]. split; [lia|].
    intros a Ha Hle. in_cases Ha; lia.
  - left. split; [simpl; tauto|]. split; [lia|].
    intros a Ha Hle. in_cases Ha; lia.
Defined.

(** C5: a non-increasing range is a defined zero-cost result, not an error:
    when target <= curr, calcLevelCost(curr, target) is { xp:0, mora:0,
    hero:0 }, and when to <= from, calcTalentCost(from, to) is all zeros,
    whatever the talent table holds. *)
Theorem nonincreasing_range_costs_zero :
  (forall curr target : number,
      js_le target curr = true -> calcLevelCost curr target = zeroLevelCost)
  /\ (forall (TALENT_COSTS : list TalentStep) (from to : number),
        js_le to from = true ->
        calcTalentCost TALENT_COSTS from to = zeroTalentCost).
Proof.
  split.
  - intros curr target H. unfold calcLevelCost. now rewrite H.
  - intros T from to H. unfold calcTalentCost. now rewrite H.
Qed.

Lemma nonincreasing_range_costs_zero_witness :
  calcLevelCost (Num 40) (Num 20) = zeroLevelCost
  /\ calcTalentCost
       [mkStep (Num 1) (Num 2) (Num 3) (Num 0) (Num 0) (Num 12500) (Num 0)]
       (Num 6) (Num 6)
     = zeroTalentCost.
Proof.
  split.
  - apply (proj1 nonincreasing_range_costs_zero (Num 40) (Num 20)). reflexivity.
  - apply (proj2 nonincreasing_range_costs_zero _ (Num 6) (Num 6)). reflexivity.
Defined.

(** C6: a sub-anchor range is charged the full cost of every enclosing
    segment.  calcLevelCost(25, 35) is the totals of the 20→40 segment
    (xp 578325, mora 112000, hero 28); calcLevelCost(1, 90) is the sum over
    the whole table; for all integer levels curr < target the result is the
    sum of the full totals of exactly the segments that meet the open range
    (curr, target), those with to_level > curr and from_level < target; so
    a range inside one segment costs that segment's totals. *)
Theorem subanchor_range_charged_in_full :
  calcLevelCost (Num 25) (Num 35)
  = mkLevelCost (Num 578325) (Num 112000) (Num 28)
  /\ calcLevelCost (Num 25) (Num 35)
     = segmentTotals (mkSegment 20 40 578325 112000 28)
  /\ calcLevelCost (Num 1) (Num 90) = segmentSum LEVEL_COSTS
  /\ (forall curr target : Z,
        curr < target ->
        calcLevelCost (Num curr) (Num target)
        = segmentSum (List.filter (overlaps curr target) LEVEL_COSTS))
  /\ (forall (row : LevelCostSegment) (curr target : Z),
        In row LEVEL_COSTS ->
        from_level row <= curr -> curr < target -> target <= to_level row ->
        calcLevelCost (Num curr) (Num target) = segmentTotals row).
Proof.
  split; [reflexivity|]. split; [reflexivity|]. split; [reflexivity|]. split.
  - exact calcLevelCost_meeting.
  - intros row curr target Hrow Hfrom Hlt Hto.
    destruct (segment_clipping row curr target Hrow Hfrom Hlt Hto)
      as (Hf & Hc & Hsel).
    rewrite (calcLevelCost_clipped curr target _ _ Hlt Hf Hc), Hsel.
    reflexivity.
Qed.

Lemma subanchor_range_charged_in_full_witness :
  calcLevelCost (Num 25) (Num 45)
  = segmentSum [ mkSegment 20 40 578325 112000 28;
                 mkSegment 40 50 573100 116000 29 ]
  /\ calcLevelCost (Num 41) (Num 49)
     = segmentTotals (mkSegment 40 50 573100 116000 29).
Proof.
  destruct subanchor_range_charged_in_full as (_ & _ & _ & Hall & Hone).
  split.
  - apply (Hall 25 45). lia.
  - apply (Hone (mkSegment 40 50 573100 116000 29) 41 49);
      [simpl; tauto | simpl; lia | lia | simpl; lia].
Defined.

(** C10: calcLevelCost is additive at anchor boundaries.  For anchors
    a < b < c, calcLevelCost(a, c) is the componentwise sum of
    calcLevelCost(a, b) and calcLevelCost(b, c); no segment of the table
    straddles the anchor b. *)
Theorem calcLevelCost_additive_at_anchors (a b c : Z) :
  In a LEVEL_ANCHORS -> In b LEVEL_ANCHORS -> In c LEVEL_ANCHORS ->
  a < b -> b < c ->
  calcLevelCost (Num a) (Num c)
  = addLevelCost (calcLevelCost (Num a) (Num b)) (calcLevelCost (Num b) (Num c))
  /\ (forall row, In row LEVEL_COSTS ->
                  ~ (from_level row < b /\ b < to_level row)).
Proof.
  intros Ha Hb Hc Hab Hbc. split.
  - in_cases Ha; in_cases Hb; try lia; in_cases Hc; try lia; reflexivity.
  - intros row Hrow [H1 H2].
    in_cases Hrow; simpl in H1, H2; in_cases Hb; lia.
Qed.

Lemma calcLevelCost_additive_at_anchors_witness :
  calcLevelCost (Num 20) (Num 80)
  = addLevelCost (calcLevelCost (Num 20) (Num 50))
                 (calcLevelCost (Num 50) (Num 80)).
Proof.
  apply (calcLevelCost_additive_at_anchors 20 50 80);
    [simpl; tauto | simpl; tauto | simpl; tauto | lia | lia].
Defined.

(** * Talent cost and character cost *)

Section TalentFacts.

Variable TALENT_COSTS : list TalentStep.

(** The loop over the steps adds the costs of the contained rows, in the
    order of the table. *)
Lemma talentLoop_spec (from to : number) (l : list TalentStep) :
  forall out,
    fold_left (talentStep from to) l out
    = let sel := List.filter (contained from to) l in
      mkTalentCost
        (sumFrom (fun s => or0 (step_mora s)) sel (tc_mora out))
        (sumFrom (fun s => or0 (step_crown s)) sel (tc_crown out))
        (mkBooks
           (sumFrom (fun s => or0 (book_low s)) sel (low (tc_books out)))
           (sumFrom (fun s => or0 (book_mid s)) sel (mid (tc_books out)))
           (sumFrom (fun s => or0 (book_high s)) sel (high (tc_books out)))).
Proof.
  induction l as [|step l IH]; intros out; cbn [fold_left List.filter].
  - now destruct out as [m c [lo mi hi]].
  - rewrite IH. unfold talentStep. fold (contained from to step).
    destruct (contained from to step); reflexivity.
Qed.

Lemma calcTalentCost_loop (from to : number) :
  js_le to from = false ->
  calcTalentCost TALENT_COSTS from to
  = stepSum (List.filter (contained from to) TALENT_COSTS).
Proof.
  intros H. unfold calcTalentCost. rewrite H. apply talentLoop_spec.
Qed.

Lemma js_gt_not_le (x y : number) : js_gt x y = true -> js_le x y = false.
Proof.
  destruct x as [|a], y as [|b]; simpl; try discriminate.
  rewrite Z.gtb_ltb. intros H%Z.ltb_lt. apply Z.leb_gt. exact H.
Qed.

(** A row whose [from] or [to] is NaN is never selected, and a NaN cost
    counts as 0 when the row is summed. *)
Lemma NaN_range_not_contained (from to : number) (step : TalentStep) :
  step_from step = NaN \/ step_to step = NaN -> contained from to step = false.
Proof.
  unfold contained. intros [H|H]; rewrite H; simpl.
  - reflexivity.
  - apply andb_false_r.
Qed.

Lemma or0_NaN : or0 NaN = Num 0.
Proof. reflexivity. Qed.

(** With no negative cost in the table, every component of a talent cost
    is a number from 0 up. *)
Lemma calcTalentCost_nonneg (from to : number) :
  costs_not_negative TALENT_COSTS ->
  let c := calcTalentCost TALENT_COSTS from to in
  nonneg_num (tc_mora c) /\ nonneg_num (tc_crown c)
  /\ books_nonneg (tc_books c).
Proof.
  intros HT. cbv zeta. unfold calcTalentCost, books_nonneg.
  destruct (js_le to from).
  - cbn. lia.
  - rewrite talentLoop_spec. cbv zeta.
    cbn [tc_mora tc_crown tc_books low mid high zeroTalentCost zeroBooks].
    repeat split; apply sumFrom_nonneg; try (cbn; lia);
      intros s Hs; apply filter_In in Hs as [Hs _]; apply or0_nonneg;
      destruct (HT s Hs) as (? & ? & ? & ? & ?); assumption.
Qed.

(** Every component of a level cost is a number from 0 up. *)
Lemma calcLevelCost_nonneg (curr target : number) :
  let c := calcLevelCost curr target in
  nonneg_num (lc_xp c) /\ nonneg_num (lc_mora c) /\ nonneg_num (lc_hero c).
Proof.
  unfold calcLevelCost. destruct (js_le target curr); [cbn; lia|].
  cbv zeta. generalize (clipFloor curr) (clipCeiling target). intros c t.
  assert (H : forall l acc,
             (forall row, In row l -> In row LEVEL_COSTS) ->
             nonneg_num (lc_xp acc) /\ nonneg_num (lc_mora acc)
             /\ nonneg_num (lc_hero acc) ->
             let r := fold_left (levelStep c t) l acc in
             nonneg_num (lc_xp r) /\ nonneg_num (lc_mora r)
             /\ nonneg_num (lc_hero r)).
  { induction l as [|row l IH]; intros acc Hl Hacc; [exact Hacc|].
    cbn [fold_left]. apply IH; [intros r Hr; apply Hl; now right|].
    unfold levelStep.
    destruct (js_gt _ _ && js_lt _ _); [|exact Hacc].
    destruct Hacc as (Hx & Hm & Hh).
    assert (Hrow : In row LEVEL_COSTS) by (apply Hl; now left).
    cbn [lc_xp lc_mora lc_hero].
    repeat split; apply js_add_nonneg; try assumption;
      in_cases Hrow; cbn; lia. }
  apply H; [intros row Hrow; exact Hrow | cbn; lia].
Qed.

(** The fields of the result of calcCharacterCost, with the [||0] guards
    of the code. *)
Lemma calcCharacterCost_fields (s : Entry) :
  let lvl := calcLevelCost (levelCurrent s) (levelTarget s) in
  let tNA := calcTalentCost TALENT_COSTS (naCurrent s) (naTarget s) in
  let tSK := calcTalentCost TALENT_COSTS (skillCurrent s) (skillTarget s) in
  let tBR := calcTalentCost TALENT_COSTS (burstCurrent s) (burstTarget s) in
  calcCharacterCost TALENT_COSTS s
  = mkCharacterCost
      (js_add (js_add (js_add (lc_mora lvl) (tc_mora tNA)) (tc_mora tSK))
              (tc_mora tBR))
      (lc_xp lvl) (lc_hero lvl)
      (mkBooks
         (js_add (js_add (or0 (low (tc_books tNA))) (or0 (low (tc_books tSK))))
                 (or0 (low (tc_books tBR))))
         (js_add (js_add (or0 (mid (tc_books tNA))) (or0 (mid (tc_books tSK))))
                 (or0 (mid (tc_books tBR))))
         (js_add (js_add (or0 (high (tc_books tNA)))
                         (or0 (high (tc_books tSK))))
                 (or0 (high (tc_books tBR)))))
      (js_add (js_add (or0 (tc_crown tNA)) (or0 (tc_crown tSK)))
              (or0 (tc_crown tBR))).
Proof. reflexivity. Qed.

(** With no negative cost in the table, every component of a character
    cost is a number from 0 up. *)
Lemma calcCharacterCost_nonneg (s : Entry) :
  costs_not_negative TALENT_COSTS ->
  let c := calcCharacterCost TALENT_COSTS s in
  nonneg_num (cc_mora c) /\ nonneg_num (cc_xp c) /\ nonneg_num (cc_heroBooks c)
  /\ books_nonneg (cc_books c) /\ nonneg_num (cc_crown c).
Proof.
  intros HT. cbv zeta. rewrite calcCharacterCost_fields. cbv zeta.
  unfold books_nonneg.
  cbn [cc_mora cc_xp cc_heroBooks cc_books cc_crown low mid high].
  destruct (calcLevelCost_nonneg (levelCurrent s) (levelTarget s))
    as (Hx & Hm & Hh).
  destruct (calcTalentCost_nonneg (naCurrent s) (naTarget s) HT)
    as (Hm1 & Hc1 & Hl1 & Hd1 & Hh1).
  destruct (calcTalentCost_nonneg (skillCurrent s) (skillTarget s) HT)
    as (Hm2 & Hc2 & Hl2 & Hd2 & Hh2).
  destruct (calcTalentCost_nonneg (burstCurrent s) (burstTarget s) HT)
    as (Hm3 & Hc3 & Hl3 & Hd3 & Hh3).
  cbv zeta in *.
  repeat split; repeat apply js_add_nonneg; try assumption;
    apply or0_nonneg, nonneg_not_negative; assumption.
Qed.

End TalentFacts.

(** C2: for to > from, calcTalentCost(from, to) sums into mora, crown and
    books.low/mid/high exactly the steps with step.from >= from and
    step.to <= to.  A step that is not contained adds nothing, wherever it
    stands in the table; such is a step 1→3 for the range 2→5, which
    overlaps the range without lying inside it. *)
Theorem calcTalentCost_containment
  (TALENT_COSTS : list TalentStep) (from to : number) :
  js_gt to from = true ->
  calcTalentCost TALENT_COSTS from to
  = stepSum (List.filter (contained from to) TALENT_COSTS)
  /\ (forall before step after,
        TALENT_COSTS = before ++ step :: after ->
        contained from to step = false ->
        calcTalentCost TALENT_COSTS from to
        = calcTalentCost (before ++ after) from to)
  /\ (forall bl bm bh m c,
        let step := mkStep (Num 1) (Num 3) bl bm bh m c in
        partly_overlaps (Num 2) (Num 5) step = true
        /\ calcTalentCost [step] (Num 2) (Num 5) = zeroTalentCost).
Proof.
  intros Hgt. apply js_gt_not_le in Hgt. split; [|split].
  - now apply calcTalentCost_loop.
  - intros before step after -> Hout.
    rewrite !calcTalentCost_loop by exact Hgt.
    rewrite !List.filter_app. cbn [List.filter]. now rewrite Hout.
  - intros bl bm bh m c. split; reflexivity.
Qed.

Lemma calcTalentCost_containment_witness :
  js_gt (Num 5) (Num 2) = true
  /\ calcTalentCost
       [ mkStep (Num 1) (Num 3) (Num 9) (Num 0) (Num 0) (Num 30000) (Num 0);
         mkStep (Num 2) (Num 3) (Num 0) (Num 2) (Num 0) (Num 17500) (Num 0);
         mkStep (Num 4) (Num 5) (Num 0) (Num 6) (Num 0) (Num 30000) (Num 0) ]
       (Num 2) (Num 5)
     = mkTalentCost (Num 47500) (Num 0) (mkBooks (Num 0) (Num 8) (Num 0)).
Proof.
  split; [reflexivity|].
  rewrite (proj1 (calcTalentCost_containment _ (Num 2) (Num 5) eq_refl)).
  reflexivity.
Defined.

(** C4: calcCharacterCost computes the level cost once and the talent cost
    of the normal-attack, skill and burst tracks, and returns
    mora = levelCost.mora + naCost.mora + skillCost.mora + burstCost.mora,
    xp = levelCost.xp, heroBooks = levelCost.hero, books.low/mid/high = the
    sums of the three talent costs' book fields, crown = the sum of their
    crown fields.  The code reads each book and crown field through [||0],
    so a field that is NaN counts as 0; where no such field is NaN, books
    and crown are the plain sums of the three talent costs. *)
Theorem calcCharacterCost_additive (TALENT_COSTS : list TalentStep) (s : Entry) :
  let lvl := calcLevelCost (levelCurrent s) (levelTarget s) in
  let tNA := calcTalentCost TALENT_COSTS (naCurrent s) (naTarget s) in
  let tSK := calcTalentCost TALENT_COSTS (skillCurrent s) (skillTarget s) in
  let tBR := calcTalentCost TALENT_COSTS (burstCurrent s) (burstTarget s) in
  let c := calcCharacterCost TALENT_COSTS s in
  cc_mora c
  = js_add (js_add (js_add (lc_mora lvl) (tc_mora tNA)) (tc_mora tSK))
           (tc_mora tBR)
  /\ cc_xp c = lc_xp lvl
  /\ cc_heroBooks c = lc_hero lvl
  /\ low (cc_books c)
     = js_add (js_add (or0 (low (tc_books tNA))) (or0 (low (tc_books tSK))))
              (or0 (low (tc_books tBR)))
  /\ mid (cc_books c)
     = js_add (js_add (or0 (mid (tc_books tNA))) (or0 (mid (tc_books tSK))))
              (or0 (mid (tc_books tBR)))
  /\ high (cc_books c)
     = js_add (js_add (or0 (high (tc_books tNA))) (or0 (high (tc_books tSK))))
              (or0 (high (tc_books tBR)))
  /\ cc_crown c
     = js_add (js_add (or0 (tc_crown tNA)) (or0 (tc_crown tSK)))
              (or0 (tc_crown tBR))
  /\ (books_num (tc_books tNA) /\ is_num (tc_crown tNA) ->
      books_num (tc_books tSK) /\ is_num (tc_crown tSK) ->
      books_num (tc_books tBR) /\ is_num (tc_crown tBR) ->
      cc_books c = addBooks (addBooks (tc_books tNA) (tc_books tSK))
                            (tc_books tBR)
      /\ cc_crown c
         = js_add (js_add (tc_crown tNA) (tc_crown tSK)) (tc_crown tBR)).
Proof.
  cbv zeta. rewrite calcCharacterCost_fields. cbv zeta.
  cbn [cc_mora cc_xp cc_heroBooks cc_books cc_crown low mid high].
  do 7 (split; [reflexivity|]).
  intros [(Hl1 & Hm1 & Hh1) Hc1] [(Hl2 & Hm2 & Hh2) Hc2]
         [(Hl3 & Hm3 & Hh3) Hc3].
  unfold or0, addBooks. rewrite !js_or_is_num by assumption.
  split; reflexivity.
Qed.

Lemma calcCharacterCost_additive_witness :
  cc_books
    (calcCharacterCost
       [ mkStep (Num 1) (Num 2) (Num 3) (Num 0) (Num 0) (Num 12500) (Num 0);
         mkStep (Num 9) (Num 10) (Num 0) (Num 0) (Num 16) (Num 700000)
                (Num 1) ]
       (mkEntry "amber-1" "amber" "Amber" "Pyro" "images/amber.png"
                (Num 1) (Num 90) (Num 1) (Num 10) (Num 1) (Num 1)
                (Num 1) (Num 2) None (Text "mond")))
  = mkBooks (Num 6) (Num 0) (Num 16)
  /\ cc_crown
       (calcCharacterCost
          [ mkStep (Num 1) (Num 2) (Num 3) (Num 0) (Num 0) (Num 12500) (Num 0);
            mkStep (Num 9) (Num 10) (Num 0) (Num 0) (Num 16) (Num 700000)
                   (Num 1) ]
          (mkEntry "amber-1" "amber" "Amber" "Pyro" "images/amber.png"
                   (Num 1) (Num 90) (Num 1) (Num 10) (Num 1) (Num 1)
                   (Num 1) (Num 2) None (Text "mond")))
     = Num 1.
Proof.
  pose proof
    (calcCharacterCost_additive
       [ mkStep (Num 1) (Num 2) (Num 3) (Num 0) (Num 0) (Num 12500) (Num 0);
         mkStep (Num 9) (Num 10) (Num 0) (Num 0) (Num 16) (Num 700000)
                (Num 1) ]
       (mkEntry "amber-1" "amber" "Amber" "Pyro" "images/amber.png"
                (Num 1) (Num 90) (Num 1) (Num 10) (Num 1) (Num 1)
                (Num 1) (Num 2) None (Text "mond"))) as H.
  cbv zeta in H. destruct H as (_ & _ & _ & _ & _ & _ & _ & Hplain).
  destruct Hplain as [Hb Hc];
    [repeat split; exact I | repeat split; exact I | repeat split; exact I|].
  rewrite Hb, Hc. split; reflexivity.
Defined.

(** * Roster totals *)

Section TotalsFacts.

Variable TALENT_COSTS : list TalentStep.

Local Abbreviation cost := (calcCharacterCost TALENT_COSTS).

(** [v || ''] keeps a region as it is. *)
Lemma or_value_self (v : propValue) : or_value (Some v) (Text "") = v.
Proof.
  destruct v as [s|n]; cbn; [|reflexivity].
  destruct (String.eqb_spec s "") as [->|]; reflexivity.
Qed.

(** One turn of the loop adds the cost of the entry to the sums, whatever
    its talent_book. *)
Lemma totalsStep_fst (acc : GlobalSums * gmap string SeriesTotals) (it : Entry) :
  fst (totalsStep TALENT_COSTS acc it) = addGlobal (fst acc) (cost it).
Proof. unfold totalsStep. now destruct (talent_book it). Qed.

(** The global sums after the loop, from any start. *)
Lemma totalsLoop_fst (l : list Entry) :
  forall acc,
    fst (fold_left (totalsStep TALENT_COSTS) l acc)
    = mkGlobalSums
        (sumFrom (fun it => cc_mora (cost it)) l (sum_mora (fst acc)))
        (sumFrom (fun it => cc_xp (cost it)) l (sum_xp (fst acc)))
        (sumFrom (fun it => cc_heroBooks (cost it)) l (sum_hero (fst acc)))
        (mkBooks
           (sumFrom (fun it => or0 (low (cc_books (cost it)))) l
                    (low (sum_books (fst acc))))
           (sumFrom (fun it => or0 (mid (cc_books (cost it)))) l
                    (mid (sum_books (fst acc))))
           (sumFrom (fun it => or0 (high (cc_books (cost it)))) l
                    (high (sum_books (fst acc)))))
        (sumFrom (fun it => or0 (cc_crown (cost it))) l (sum_crown (fst acc))).
Proof.
  induction l as [|it l IH]; intros acc; cbn [fold_left].
  - now destruct acc as [[m x h [lo mi hi] c] series].
  - rewrite IH, totalsStep_fst. reflexivity.
Qed.

(** The effect of an entry of the series [k] on the bucket [k]. *)
Lemma totalsStep_lookup (acc : GlobalSums * gmap string SeriesTotals)
      (it : Entry) (k : string) :
  snd (totalsStep TALENT_COSTS acc it) !! k
  = match talent_book it with
    | Some b =>
        if String.eqb (seriesKey b (region it)) k
        then Some (addSeriesBooks (cost it)
                     (default (newSeriesTotals it b) (snd acc !! k)))
        else snd acc !! k
    | None => snd acc !! k
    end.
Proof.
  unfold totalsStep. destruct (talent_book it) as [b|]; [|reflexivity].
  cbn [snd]. destruct (String.eqb_spec (seriesKey b (region it)) k) as [->|Hne].
  - rewrite lookup_alter_eq.
    destruct (snd acc !! k) as [st|] eqn:Hk.
    + now rewrite Hk.
    + now rewrite lookup_insert_eq.
  - rewrite lookup_alter_ne by exact Hne.
    destruct (snd acc !! seriesKey b (region it)); [reflexivity|].
    now rewrite lookup_insert_ne.
Qed.

(** A bucket that exists keeps its identity and icons and adds the books
    of the entries of its series. *)
Lemma bucket_after (k : string) (l : list Entry) :
  forall acc st,
    snd acc !! k = Some st ->
    snd (fold_left (totalsStep TALENT_COSTS) l acc) !! k
    = let es := List.filter (inSeries k) l in
      Some (mkSeriesTotals (st_key st) (nameKr st) (st_region st)
              (mkSeriesSums
                 (sumFrom (fun it => or0 (low (cc_books (cost it)))) es
                          (teachings (sums st)))
                 (sumFrom (fun it => or0 (mid (cc_books (cost it)))) es
                          (guide (sums st)))
                 (sumFrom (fun it => or0 (high (cc_books (cost it)))) es
                          (philosophies (sums st))))
              (icons st)).
Proof.
  induction l as [|it l IH]; intros acc st Hst; cbn [fold_left List.filter].
  - rewrite Hst. now destruct st as [a b c [x y z] i].
  - pose proof (totalsStep_lookup acc it k) as Hstep.
    unfold inSeries. destruct (talent_book it) as [b|].
    + destruct (String.eqb (seriesKey b (region it)) k).
      * rewrite Hst in Hstep. cbn [from_option id] in Hstep.
        rewrite (IH _ _ Hstep). reflexivity.
      * rewrite Hst in Hstep. exact (IH _ _ Hstep).
    + rewrite Hst in Hstep. exact (IH _ _ Hstep).
Qed.

(** A bucket that does not exist stays absent until the first entry of
    its series, which creates it. *)
Lemma bucket_absent (k : string) (l : list Entry) :
  forall acc,
    snd acc !! k = None ->
    match List.filter (inSeries k) l with
    | [] => snd (fold_left (totalsStep TALENT_COSTS) l acc) !! k = None
    | first :: es =>
        exists b st,
          talent_book first = Some b
          /\ seriesKey b (region first) = k
          /\ snd (fold_left (totalsStep TALENT_COSTS) l acc) !! k = Some st
          /\ st_key st = key b /\ nameKr st = name_kr b
          /\ st_region st = region first
          /\ teachings (sums st)
             = sumOf (fun it => or0 (low (cc_books (cost it)))) (first :: es)
          /\ guide (sums st)
             = sumOf (fun it => or0 (mid (cc_books (cost it)))) (first :: es)
          /\ philosophies (sums st)
             = sumOf (fun it => or0 (high (cc_books (cost it)))) (first :: es)
    end.
Proof.
  induction l as [|it l IH]; intros acc Hk; cbn [fold_left List.filter].
  - exact Hk.
  - pose proof (totalsStep_lookup acc it k) as Hstep.
    unfold inSeries at 1. destruct (talent_book it) as [b|] eqn:Hb.
    + destruct (String.eqb_spec (seriesKey b (region it)) k) as [Heq|Hne].
      * rewrite Hk in Hstep. cbn [from_option id] in Hstep.
        exists b. eexists. split; [exact Hb|]. split; [exact Heq|].
        rewrite (bucket_after k l _ _ Hstep). cbv zeta.
        split; [reflexivity|].
        cbn -[calcCharacterCost sumFrom sumOf or_value].
        rewrite or_value_self. repeat split; reflexivity.
      * rewrite Hk in Hstep. exact (IH _ Hstep).
    + rewrite Hk in Hstep. exact (IH _ Hstep).
Qed.

End TotalsFacts.

(** A roster with the same character twice and a character without a
    series: the bucket of the series holds the books of both copies. *)
Example refreshTotals_sample :
  let table :=
    [ mkStep (Num 1) (Num 2) (Num 3) (Num 0) (Num 0) (Num 12500) (Num 0);
      mkStep (Num 2) (Num 3) (Num 0) (Num 2) (Num 0) (Num 17500) (Num 0) ] in
  let amber := resolveSeries (Some "Mondstadt") (Some "Monday") in
  let aloy := resolveSeries None None in
  let item u c :=
    mkEntry u "1" "name" "element" "images/placeholder.png"
            (Num 1) (Num 90) (Num 1) (Num 6) (Num 1) (Num 6) (Num 1) (Num 6)
            (ch_talent_book c) (ch_region c) in
  let totals := refreshTotals table [item "1-1" amber; item "1-2" amber;
                                     item "2-1" aloy] in
  sum_books (fst totals) = mkBooks (Num 27) (Num 18) (Num 0)
  /\ sums <$> snd totals !! "freedom@@자유@@mond"
     = Some (mkSeriesSums (Num 18) (Num 12) (Num 0))
  /\ size (snd totals) = 1%nat.
Proof. vm_compute. repeat split; reflexivity. Qed.

(** C3: the global sums of refreshTotals over any working list are the
    componentwise sums of calcCharacterCost over its entries, added in the
    order of the list; the code reads the book and crown costs through
    [||0], and where none of them is NaN the sums are the plain sums of
    calcCharacterCost.  An entry listed twice is counted twice; the empty
    list gives all-zero sums and an empty series object. *)
Theorem refreshTotals_global_sums
  (TALENT_COSTS : list TalentStep) (list : list Entry) :
  let cost := calcCharacterCost TALENT_COSTS in
  let sum := fst (refreshTotals TALENT_COSTS list) in
  (sum_mora sum = sumOf (fun it => cc_mora (cost it)) list
   /\ sum_xp sum = sumOf (fun it => cc_xp (cost it)) list
   /\ sum_hero sum = sumOf (fun it => cc_heroBooks (cost it)) list
   /\ low (sum_books sum)
      = sumOf (fun it => or0 (low (cc_books (cost it)))) list
   /\ mid (sum_books sum)
      = sumOf (fun it => or0 (mid (cc_books (cost it)))) list
   /\ high (sum_books sum)
      = sumOf (fun it => or0 (high (cc_books (cost it)))) list
   /\ sum_crown sum = sumOf (fun it => or0 (cc_crown (cost it))) list)
  /\ ((forall it, In it list ->
                  books_num (cc_books (cost it)) /\ is_num (cc_crown (cost it))) ->
      low (sum_books sum) = sumOf (fun it => low (cc_books (cost it))) list
      /\ mid (sum_books sum) = sumOf (fun it => mid (cc_books (cost it))) list
      /\ high (sum_books sum) = sumOf (fun it => high (cc_books (cost it))) list
      /\ sum_crown sum = sumOf (fun it => cc_crown (cost it)) list)
  /\ (forall it : Entry,
        fst (refreshTotals TALENT_COSTS [it; it])
        = let c := cost it in
          mkGlobalSums
            (js_add (cc_mora c) (cc_mora c))
            (js_add (cc_xp c) (cc_xp c))
            (js_add (cc_heroBooks c) (cc_heroBooks c))
            (mkBooks
               (js_add (or0 (low (cc_books c))) (or0 (low (cc_books c))))
               (js_add (or0 (mid (cc_books c))) (or0 (mid (cc_books c))))
               (js_add (or0 (high (cc_books c))) (or0 (high (cc_books c)))))
            (js_add (or0 (cc_crown c)) (or0 (cc_crown c))))
  /\ refreshTotals TALENT_COSTS [] = (zeroGlobalSums, ∅).
Proof.
  cbv zeta. split; [|split; [|split; [|reflexivity]]].
  - unfold refreshTotals. rewrite totalsLoop_fst. simpl. repeat split.
  - intros Hnum. unfold refreshTotals, sumOf. rewrite totalsLoop_fst.
    cbn [fst zeroGlobalSums sum_books sum_crown zeroBooks low mid high].
    repeat split; apply sumFrom_guard; intros it Hit;
      destruct (Hnum it Hit) as [(Hl & Hm & Hh) Hc]; assumption.
  - intros it. unfold refreshTotals. rewrite totalsLoop_fst.
    unfold sumFrom, zeroGlobalSums, zeroBooks.
    cbn [fold_left fst sum_mora sum_xp sum_hero sum_books sum_crown low mid high].
    rewrite !js_add_0_l. reflexivity.
Qed.

Lemma refreshTotals_global_sums_witness :
  low (sum_books
         (fst (refreshTotals
                 [ mkStep (Num 1) (Num 2) (Num 3) (Num 0) (Num 0) (Num 12500)
                          (Num 0) ]
                 [ mkEntry "amber-1" "amber" "Amber" "Pyro" "images/amber.png"
                           (Num 1) (Num 90) (Num 1) (Num 6) (Num 1) (Num 6)
                           (Num 1) (Num 6) None (Text "mond");
                   mkEntry "amber-2" "amber" "Amber" "Pyro" "images/amber.png"
                           (Num 1) (Num 90) (Num 1) (Num 6) (Num 1) (Num 6)
                           (Num 1) (Num 6) None (Text "mond") ])))
  = Num 18.
Proof.
  pose proof
    (refreshTotals_global_sums
       [ mkStep (Num 1) (Num 2) (Num 3) (Num 0) (Num 0) (Num 12500) (Num 0) ]
       [ mkEntry "amber-1" "amber" "Amber" "Pyro" "images/amber.png"
                 (Num 1) (Num 90) (Num 1) (Num 6) (Num 1) (Num 6)
                 (Num 1) (Num 6) None (Text "mond");
         mkEntry "amber-2" "amber" "Amber" "Pyro" "images/amber.png"
                 (Num 1) (Num 90) (Num 1) (Num 6) (Num 1) (Num 6)
                 (Num 1) (Num 6) None (Text "mond") ]) as H.
  cbv zeta in H. destruct H as (_ & Hplain & _).
  destruct Hplain as (Hlow & _).
  - intros it [<-|[<-|[]]]; repeat split; exact I.
  - rewrite Hlow. reflexivity.
Defined.

(** * The series resolver *)

(** Case analysis on a successful lookup in a table given as a list. *)
Ltac enum_lookup H :=
  apply elem_of_list_to_map_2 in H;
  repeat (apply elem_of_cons in H as [H|H]; [injection H as ? ?; subst|]);
  try (apply elem_of_nil in H; contradiction).

Section ResolverFacts.

Local Open Scope string_scope.


(** [a || ''] keeps a string as it is. *)
Lemma or_str_self (s : string) : or_str (Some s) "" = s.
Proof.
  unfold or_str. destruct (String.eqb_spec s "") as [->|]; reflexivity.
Qed.

(** The test for a name inherited from Object.prototype. *)
Lemma inherited_name_In (k : string) :
  existsb (String.eqb k) objectPrototypeNames = true
  <-> In k objectPrototypeNames.
Proof.
  rewrite existsb_exists. split.
  - intros (n & Hn & He). apply String.eqb_eq in He. now subst.
  - intros H. exists k. split; [exact H | apply String.eqb_refl].
Qed.

(** The text of an inherited member starts with a bracket or with the
    letters of the word function. *)
Lemma inherited_text_head (n : string) :
  exists rest,
    valueText (Inherited n) = String "[" rest
    \/ valueText (Inherited n) = String "f" (String "u" rest).
Proof.
  cbn [valueText]. destruct (String.eqb n "__proto__"); eexists;
    [left | right]; reflexivity.
Qed.

(** Such a text names no region, no day and no member of
    Object.prototype. *)
Lemma inherited_text_no_region (n : string) :
  TALENT_BOOKS !! valueText (Inherited n) = None.
Proof.
  destruct (TALENT_BOOKS !! _) as [days|] eqn:H; [exfalso|reflexivity].
  destruct (inherited_text_head n) as [rest [E|E]]; rewrite E in H;
    unfold TALENT_BOOKS in H; apply elem_of_list_to_map_2 in H;
    repeat (apply elem_of_cons in H as [H|H]; [discriminate H|]);
    now apply elem_of_nil in H.
Qed.

Lemma inherited_text_no_day (rgn n : string) (days : gmap string SeriesEntry) :
  TALENT_BOOKS !! rgn = Some days -> days !! valueText (Inherited n) = None.
Proof.
  intros Hr.
  destruct (days !! _) as [se|] eqn:H; [exfalso|reflexivity].
  unfold TALENT_BOOKS in Hr. enum_lookup Hr;
    destruct (inherited_text_head n) as [rest [E|E]]; rewrite E in H;
    unfold seriesOfRegion in H; apply elem_of_list_to_map_2 in H;
    repeat (apply elem_of_cons in H as [H|H]; [discriminate H|]);
    now apply elem_of_nil in H.
Qed.

Lemma inherited_text_not_name (n : string) :
  ~ In (valueText (Inherited n)) objectPrototypeNames.
Proof.
  intros H. destruct (inherited_text_head n) as [rest [E|E]]; rewrite E in H;
    simpl in H; repeat (destruct H as [H|H]; [discriminate H|]); exact H.
Qed.

(** The three outcomes of the alias step on a table without empty
    values. *)
Lemma aliasOf_cases (table : gmap string string) (raw : string) :
  (forall k v, table !! k = Some v -> v <> "") ->
  match table !! raw with
  | Some v => aliasOf table raw = Text v
  | None =>
      if existsb (String.eqb raw) objectPrototypeNames
      then aliasOf table raw = Inherited raw
      else aliasOf table raw = Text raw
  end.
Proof.
  intros Hne. unfold aliasOf, getProp.
  destruct (table !! raw) as [v|] eqn:E.
  - cbn [or_value truthy_value].
    destruct (String.eqb_spec v "") as [->|]; [|reflexivity].
    now destruct (Hne _ _ E).
  - destruct (existsb _ _); [reflexivity|].
    exact (or_value_self (Text raw)).
Qed.

Lemma REGION_ALIAS_values (k v : string) :
  REGION_ALIAS !! k = Some v -> v <> "" /\ ~ In v objectPrototypeNames.
Proof.
  intros H. unfold REGION_ALIAS in H.
  enum_lookup H; (split; [discriminate|]); intros Hin; simpl in Hin;
    repeat (destruct Hin as [Hin|Hin]; [discriminate Hin|]); exact Hin.
Qed.

Lemma DAY_ALIAS_values (k v : string) :
  DAY_ALIAS !! k = Some v -> v <> "" /\ ~ In v objectPrototypeNames.
Proof.
  intros H. unfold DAY_ALIAS in H.
  enum_lookup H; (split; [discriminate|]); intros Hin; simpl in Hin;
    repeat (destruct Hin as [Hin|Hin]; [discriminate Hin|]); exact Hin.
Qed.

(** The text of a normalized value is never a name inherited from
    Object.prototype. *)
Lemma aliasOf_text_not_inherited (table : gmap string string) (raw : string) :
  (forall k v, table !! k = Some v -> v <> "" /\ ~ In v objectPrototypeNames) ->
  ~ In (valueText (aliasOf table raw)) objectPrototypeNames.
Proof.
  intros Hval.
  pose proof (aliasOf_cases table raw (fun k v H => proj1 (Hval k v H))) as Hc.
  destruct (table !! raw) as [v|] eqn:E.
  - rewrite Hc. exact (proj2 (Hval _ _ E)).
  - destruct (existsb _ _) eqn:Ei; rewrite Hc.
    + apply inherited_text_not_name.
    + cbn [valueText]. intros Hin. apply inherited_name_In in Hin. congruence.
Qed.

(** resolveSeries, through the normalized region and day. *)
Lemma resolveSeries_unfold (c_region c_day : option string) :
  resolveSeries c_region c_day
  = let rgn := aliasOf REGION_ALIAS (toLowerCase (trim (or_str c_region ""))) in
    let day := aliasOf DAY_ALIAS (toLowerCase (trim (or_str c_day ""))) in
    mkCharacter rgn day (seriesBook rgn day).
Proof. reflexivity. Qed.

(** The keys that [loadData] reads in TALENT_BOOKS and in its regions are
    never inherited names, so these lookups meet own properties only. *)
Lemma series_key_not_inherited (c_region c_day : option string) :
  let c := resolveSeries c_region c_day in
  ~ In (valueText (ch_region c)) objectPrototypeNames
  /\ ~ In (valueText (ch_day c)) objectPrototypeNames.
Proof.
  cbv zeta. rewrite resolveSeries_unfold. cbv zeta. cbn [ch_region ch_day].
  split; apply aliasOf_text_not_inherited;
    [exact REGION_ALIAS_values | exact DAY_ALIAS_values].
Qed.


Lemma seriesBook_text (rgn day : propValue) (b : Book) :
  seriesBook rgn day = Some b ->
  exists r d days se,
    rgn = Text r /\ day = Text d
    /\ TALENT_BOOKS !! r = Some days /\ days !! d = Some se
    /\ key b = series_key se /\ name_kr b = series_name_kr se.
Proof.
  unfold seriesBook. destruct (truthy_value _ && truthy_value _); [|discriminate].
  destruct (TALENT_BOOKS !! _) as [days|] eqn:Hr; [|discriminate].
  destruct (days !! _) as [se|] eqn:Hd; [|discriminate].
  intros [= <-].
  destruct rgn as [r|n]; [|now rewrite inherited_text_no_region in Hr].
  destruct day as [d|n];
    [|now rewrite (inherited_text_no_day _ n _ Hr) in Hd].
  exists r, d, days, se. repeat split; assumption.
Qed.



(** A resolved series comes from a leaf of TALENT_BOOKS, under a region
    and a day that are strings. *)
Lemma resolveSeries_book (c_region c_day : option string) (b : Book) :
  ch_talent_book (resolveSeries c_region c_day) = Some b ->
  exists r d days se,
    ch_region (resolveSeries c_region c_day) = Text r
    /\ ch_day (resolveSeries c_region c_day) = Text d
    /\ TALENT_BOOKS !! r = Some days /\ days !! d = Some se
    /\ key b = series_key se /\ name_kr b = series_name_kr se.
Proof.
  rewrite resolveSeries_unfold. cbv zeta. cbn [ch_talent_book ch_region ch_day].
  apply seriesBook_text.
Qed.


End ResolverFacts.



Section ResolverClaims.

Local Open Scope string_scope.



End ResolverClaims.

(** * Normalization of the talent cost rows *)

Section NormalizeFacts.

Variable StringToNumber : string -> number.

Lemma val_or_falsy (v : jsval) :
  truthy v = false ->
  ToNumber StringToNumber (val_or v (JNumber (Num 0))) = Num 0.
Proof. intros H. unfold val_or. now rewrite H. Qed.

Lemma val_or_truthy (v : jsval) :
  truthy v = true ->
  ToNumber StringToNumber (val_or v (JNumber (Num 0)))
  = ToNumber StringToNumber v.
Proof. intros H. unfold val_or. now rewrite H. Qed.

End NormalizeFacts.

(** C9 (as the code has it): the normalization of a raw row is a total
    function, it never throws, and every field of its result is the unary
    plus of the raw field.  For book_low, book_mid, book_high, mora and
    crown the raw field is first replaced by 0 when it is falsy, so a
    missing, null, false, 0, NaN or empty field becomes 0.  The fields from
    and to have no default: a missing from or to becomes NaN.  A non-empty
    string that unary plus does not read as a number becomes NaN in every
    field. *)
Theorem normalizeStep_coercion
  (StringToNumber : string -> number) (r : RawStep) :
  let s := normalizeStep StringToNumber r in
  (forall p, In p costFields ->
             truthy (fst p r) = false -> snd p s = Num 0)
  /\ (forall p, In p costFields ->
                fst p r = JUndefined -> snd p s = Num 0)
  /\ (forall p, In p costFields ->
                truthy (fst p r) = true ->
                snd p s = ToNumber StringToNumber (fst p r))
  /\ (forall p, In p rangeFields ->
                snd p s = ToNumber StringToNumber (fst p r))
  /\ (forall p, In p rangeFields ->
                fst p r = JUndefined -> snd p s = NaN)
  /\ (forall p str, In p (rangeFields ++ costFields) ->
                    fst p r = JString str -> str <> ""%string ->
                    StringToNumber str = NaN -> snd p s = NaN).
Proof.
  cbv zeta. split; [|split; [|split; [|split; [|split]]]].
  - intros p Hp Hf. in_cases Hp; cbn [fst snd] in *;
      apply val_or_falsy; exact Hf.
  - intros p Hp Hu. in_cases Hp; cbn [fst snd] in *;
      apply val_or_falsy; now rewrite Hu.
  - intros p Hp Ht. in_cases Hp; cbn [fst snd] in *;
      apply val_or_truthy; exact Ht.
  - intros p Hp. in_cases Hp; reflexivity.
  - intros p Hp Hu. in_cases Hp; cbn [fst snd] in *;
      unfold normalizeStep; cbn; now rewrite Hu.
  - intros p str Hp Hs Hne Hnan.
    assert (Ht : truthy (JString str) = true).
    { simpl. destruct (String.eqb_spec str ""); [contradiction | reflexivity]. }
    in_cases Hp; cbn [fst snd] in *; unfold normalizeStep;
      cbn [step_from step_to book_low book_mid book_high step_mora step_crown];
      rewrite ?val_or_truthy by (rewrite Hs; exact Ht);
      rewrite Hs; exact Hnan.
Qed.

Lemma normalizeStep_coercion_witness :
  step_mora
    (normalizeStep decimalToNumber
       (mkRawStep JUndefined (JString "2") (JString " 3 ") JNull
                  (JString "") JUndefined (JString "abc")))
  = Num 0
  /\ step_from
       (normalizeStep decimalToNumber
          (mkRawStep JUndefined (JString "2") (JString " 3 ") JNull
                     (JString "") JUndefined (JString "abc")))
     = NaN
  /\ step_crown
       (normalizeStep decimalToNumber
          (mkRawStep JUndefined (JString "2") (JString " 3 ") JNull
                     (JString "") JUndefined (JString "abc")))
     = NaN.
Proof.
  pose proof (normalizeStep_coercion decimalToNumber
                (mkRawStep JUndefined (JString "2") (JString " 3 ") JNull
                           (JString "") JUndefined (JString "abc")))
    as (_ & Hmissing & _ & _ & Hrange & Hstr).
  split; [|split].
  - apply (Hmissing (raw_mora, step_mora)); [simpl; tauto | reflexivity].
  - apply (Hrange (raw_from, step_from)); [simpl; tauto | reflexivity].
  - apply (Hstr (raw_crown, step_crown) "abc"%string);
      [simpl; tauto | reflexivity | discriminate | reflexivity].
Defined.

(** The claim C9 as the specification words it fails: a row without [from]
    gets NaN for [from], and a non-numeric mora "abc" gets NaN, not 0. *)
Lemma normalizeStep_not_zero :
  step_from
    (normalizeStep decimalToNumber
       (mkRawStep JUndefined (JNumber (Num 2)) (JNumber (Num 3))
                  (JNumber (Num 0)) (JNumber (Num 0)) (JString "abc")
                  (JNumber (Num 0))))
  <> Num 0
  /\ step_mora
       (normalizeStep decimalToNumber
          (mkRawStep JUndefined (JNumber (Num 2)) (JNumber (Num 3))
                     (JNumber (Num 0)) (JNumber (Num 0)) (JString "abc")
                     (JNumber (Num 0))))
     <> Num 0.
Proof. split; vm_compute; discriminate. Qed.

(** * Further properties of the level calculator *)

Section SumFacts.

Context {A : Type}.

(** A running sum of numbers is the sum of their integers. *)
Lemma sumFrom_val (f : A -> number) (l : list A) :
  (forall x, In x l -> is_num (f x)) ->
  forall a, sumFrom f l (Num a) = Num (a + sumZ (fun x => num_val (f x)) l).
Proof.
  unfold sumFrom, sumZ.
  induction l as [|x l IH]; intros Hf a; cbn [fold_left fold_right].
  - f_equal. lia.
  - pose proof (Hf x (or_introl eq_refl)) as Hx.
    destruct (f x) as [|z]; [contradiction|].
    cbn [js_add num_val]. rewrite IH by (intros y Hy; apply Hf; now right).
    f_equal. lia.
Qed.

Lemma sumOf_val (f : A -> number) (l : list A) :
  (forall x, In x l -> is_num (f x)) ->
  sumOf f l = Num (sumZ (fun x => num_val (f x)) l).
Proof. intros Hf. unfold sumOf. now rewrite sumFrom_val. Qed.

Lemma sumZ_app (f : A -> Z) (l1 l2 : list A) :
  sumZ f (l1 ++ l2) = sumZ f l1 + sumZ f l2.
Proof.
  unfold sumZ.
  induction l1 as [|x l1 IH]; cbn [app fold_right]; [reflexivity | lia].
Qed.

Lemma sumZ_Permutation (f : A -> Z) (l1 l2 : list A) :
  Permutation l1 l2 -> sumZ f l1 = sumZ f l2.
Proof.
  unfold sumZ.
  induction 1 as [|x l l' _ IH|x y l|l l' l'' _ IH1 _ IH2];
    cbn [fold_right]; lia.
Qed.

(** Selecting more rows of a table of non-negative entries gives a larger
    sum. *)
Lemma sumZ_filter_le (f : A -> Z) (p q : A -> bool) (l : list A) :
  (forall x, In x l -> 0 <= f x) ->
  (forall x, In x l -> p x = true -> q x = true) ->
  0 <= sumZ f (List.filter p l) <= sumZ f (List.filter q l).
Proof.
  unfold sumZ.
  induction l as [|x l IH]; intros Hpos Himp; cbn [List.filter fold_right].
  - lia.
  - assert (Hx : 0 <= f x) by (apply Hpos; now left).
    assert (IH' : 0 <= fold_right (fun y acc => f y + acc) 0 (List.filter p l)
                  <= fold_right (fun y acc => f y + acc) 0 (List.filter q l)).
    { apply IH; intros y Hy; [apply Hpos | apply Himp]; now right. }
    specialize (Himp x (or_introl eq_refl)).
    destruct (p x), (q x); cbn [fold_right];
      try discriminate (Himp eq_refl); lia.
Qed.

Lemma filter_true (l : list A) : List.filter (fun _ => true) l = l.
Proof. induction l as [|x l IH]; cbn; [reflexivity | now rewrite IH]. Qed.

Lemma filter_false (l : list A) : List.filter (fun _ => false) l = [].
Proof. induction l as [|x l IH]; cbn; [reflexivity | exact IH]. Qed.

(** A narrower selection of terms from 0 up has a smaller sum. *)
Lemma sumZ_filter_sub (g : A -> Z) (p q : A -> bool) (l : list A) :
  (forall x, In x l -> q x = true -> 0 <= g x) ->
  (forall x, In x l -> p x = true -> q x = true) ->
  sumZ g (List.filter p l) <= sumZ g (List.filter q l).
Proof.
  unfold sumZ.
  induction l as [|x l IH]; intros Hpos Himp; cbn [List.filter fold_right].
  - lia.
  - assert (IH' : fold_right (fun y acc => g y + acc) 0 (List.filter p l)
                  <= fold_right (fun y acc => g y + acc) 0 (List.filter q l)).
    { apply IH; intros y Hy; [apply Hpos | apply Himp]; now right. }
    pose proof (Hpos x (or_introl eq_refl)) as Hx.
    pose proof (Himp x (or_introl eq_refl)) as Hpq.
    destruct (p x), (q x); cbn [fold_right];
      try discriminate (Hpq eq_refl); try specialize (Hx eq_refl); lia.
Qed.

(** A sum without rounding stays so over a narrower selection. *)
Lemma exact_sum_filter (f : A -> number) (p q : A -> bool) (l : list A) :
  (forall x, In x l -> p x = true -> q x = true) ->
  exact_sum f (List.filter q l) -> exact_sum f (List.filter p l).
Proof.
  intros Himp [Hnn Hsum]. split.
  - intros x Hx. apply filter_In in Hx as [Hx Hp]. apply Hnn.
    apply filter_In. split; [exact Hx | now apply Himp].
  - assert (Hle : sumZ (fun x => num_val (f x)) (List.filter p l)
                  <= sumZ (fun x => num_val (f x)) (List.filter q l)).
    { apply sumZ_filter_sub; [|exact Himp].
      intros x Hx Hq.
      assert (Hn : nonneg_num (f x)) by (apply Hnn, filter_In; now split).
      destruct (f x); [contradiction | exact Hn]. }
    lia.
Qed.

Lemma exact_sum_sublist (f : A -> number) (p : A -> bool) (l : list A) :
  exact_sum f l -> exact_sum f (List.filter p l).
Proof.
  intros H. apply (exact_sum_filter f p (fun _ => true)); [reflexivity|].
  now rewrite filter_true.
Qed.

End SumFacts.

(** The loop of calcLevelCost for any two clipped values, NaN included. *)
Lemma levelLoop_any (c t : number) (l : list LevelCostSegment) :
  forall acc,
    fold_left (levelStep c t) l acc
    = let sel :=
        List.filter (fun row => js_gt (Num (to_level row)) c
                                && js_lt (Num (from_level row)) t) l in
      mkLevelCost (sumFrom (fun r => Num (total_xp r)) sel (lc_xp acc))
                  (sumFrom (fun r => Num (total_mora r)) sel (lc_mora acc))
                  (sumFrom (fun r => Num (hero_wit r)) sel (lc_hero acc)).
Proof.
  induction l as [|row l IH]; intros acc; cbn [fold_left List.filter].
  - now destruct acc.
  - rewrite IH. unfold levelStep.
    destruct (js_gt _ c && js_lt _ t); reflexivity.
Qed.

(** calcLevelCost always returns the sum of some selection of the table. *)
Lemma calcLevelCost_selection (curr target : number) :
  exists p, calcLevelCost curr target = segmentSum (List.filter p LEVEL_COSTS).
Proof.
  unfold calcLevelCost. destruct (js_le target curr).
  - exists (fun _ => false). now rewrite filter_false.
  - eexists. cbv zeta. rewrite levelLoop_any. reflexivity.
Qed.

Lemma segmentSum_val (l : list LevelCostSegment) :
  segmentSum l
  = mkLevelCost (Num (sumZ total_xp l)) (Num (sumZ total_mora l))
                (Num (sumZ hero_wit l)).
Proof.
  unfold segmentSum. rewrite !sumOf_val by (intros; exact I). reflexivity.
Qed.

Lemma LEVEL_COSTS_nonneg (row : LevelCostSegment) :
  In row LEVEL_COSTS ->
  0 <= total_xp row /\ 0 <= total_mora row /\ 0 <= hero_wit row.
Proof. intros H. in_cases H; simpl; lia. Qed.

(** The sum over a selection lies between zero and the sum over a larger
    selection. *)
Lemma segmentSum_filter_le (p q : LevelCostSegment -> bool) :
  (forall row, In row LEVEL_COSTS -> p row = true -> q row = true) ->
  levelCost_le zeroLevelCost (segmentSum (List.filter p LEVEL_COSTS))
  /\ levelCost_le (segmentSum (List.filter p LEVEL_COSTS))
                  (segmentSum (List.filter q LEVEL_COSTS)).
Proof.
  intros Himp. rewrite !segmentSum_val. unfold levelCost_le.
  cbn [lc_xp lc_mora lc_hero zeroLevelCost num_val].
  pose proof (sumZ_filter_le total_xp p q LEVEL_COSTS
                (fun r Hr => proj1 (LEVEL_COSTS_nonneg r Hr)) Himp).
  pose proof (sumZ_filter_le total_mora p q LEVEL_COSTS
                (fun r Hr => proj1 (proj2 (LEVEL_COSTS_nonneg r Hr))) Himp).
  pose proof (sumZ_filter_le hero_wit p q LEVEL_COSTS
                (fun r Hr => proj2 (proj2 (LEVEL_COSTS_nonneg r Hr))) Himp).
  lia.
Qed.

(** The clipped floor and ceiling grow with their argument. *)
Lemma is_clipped_floor_mono (x y cx cy : Z) :
  x <= y -> is_clipped_floor x cx -> is_clipped_floor y cy -> cx <= cy.
Proof.
  intros Hxy [(Hin & Hle & _)|[_ ->]] [(Hin' & Hle' & Hmax')|[Hnone' ->]].
  - apply Hmax'; [exact Hin | lia].
  - exfalso. apply (Hnone' cx Hin). lia.
  - in_cases Hin'; lia.
  - lia.
Qed.

Lemma is_clipped_ceiling_mono (x y cx cy : Z) :
  x <= y -> is_clipped_ceiling x cx -> is_clipped_ceiling y cy -> cx <= cy.
Proof.
  intros Hxy [(Hin & Hle & Hmin)|[Hnone ->]] [(Hin' & Hle' & _)|[_ ->]].
  - apply Hmin; [exact Hin' | lia].
  - in_cases Hin; lia.
  - exfalso. apply (Hnone cy Hin'). lia.
  - lia.
Qed.

(** X1: between two anchors, the levels that the level selects offer,
    calcLevelCost charges exactly the segments that lie inside the range:
    for anchors a < b the result is the sum over the rows with
    from_level >= a and to_level <= b, nothing more. *)
Theorem calcLevelCost_exact_between_anchors (a b : Z) :
  In a LEVEL_ANCHORS -> In b LEVEL_ANCHORS -> a < b ->
  calcLevelCost (Num a) (Num b)
  = segmentSum (List.filter (inside a b) LEVEL_COSTS).
Proof.
  intros Ha Hb Hab. in_cases Ha; in_cases Hb; try lia; reflexivity.
Qed.

Lemma calcLevelCost_exact_between_anchors_witness :
  calcLevelCost (Num 40) (Num 70)
  = segmentSum [ mkSegment 40 50 573100 116000 29;
                 mkSegment 50 60 859525 172000 43;
                 mkSegment 60 70 1196525 240000 60 ].
Proof.
  apply (calcLevelCost_exact_between_anchors 40 70);
    [simpl; tauto | simpl; tauto | lia].
Defined.

(** X2: whatever its two arguments are, NaN included, calcLevelCost returns
    three numbers, none of them NaN or negative, and none above the cost of
    the whole road from 1 to 90. *)
Theorem calcLevelCost_bounded (curr target : number) :
  let r := calcLevelCost curr target in
  is_num (lc_xp r) /\ is_num (lc_mora r) /\ is_num (lc_hero r)
  /\ levelCost_le zeroLevelCost r
  /\ levelCost_le r (calcLevelCost (Num 1) (Num 90)).
Proof.
  cbv zeta. destruct (calcLevelCost_selection curr target) as [p ->].
  assert (Hfull : calcLevelCost (Num 1) (Num 90)
                  = segmentSum (List.filter (fun _ => true) LEVEL_COSTS))
    by reflexivity.
  rewrite Hfull.
  destruct (segmentSum_filter_le p (fun _ => true)) as [Hlo Hhi];
    [intros; reflexivity|].
  split; [rewrite segmentSum_val; exact I|].
  split; [rewrite segmentSum_val; exact I|].
  split; [rewrite segmentSum_val; exact I|].
  split; assumption.
Qed.

(** X3: widening a level range never lowers the cost: when curr' <= curr
    and target <= target', every component of calcLevelCost(curr, target)
    is at most that of calcLevelCost(curr', target'). *)
Theorem calcLevelCost_monotone (curr curr' target target' : Z) :
  curr' <= curr -> target <= target' ->
  levelCost_le (calcLevelCost (Num curr) (Num target))
               (calcLevelCost (Num curr') (Num target')).
Proof.
  intros Hc Ht. destruct (Z_lt_le_dec curr target) as [Hlt|Hge].
  - destruct (clipFloor_spec curr) as (cf & _ & Hf).
    destruct (clipFloor_spec curr') as (cf' & _ & Hf').
    destruct (clipCeiling_spec target) as (cc & _ & Hcc).
    destruct (clipCeiling_spec target') as (cc' & _ & Hcc').
    rewrite (calcLevelCost_clipped curr target cf cc) by assumption.
    rewrite (calcLevelCost_clipped curr' target' cf' cc') by (assumption || lia).
    apply segmentSum_filter_le. intros row _. unfold overlaps.
    pose proof (is_clipped_floor_mono _ _ _ _ Hc Hf' Hf).
    pose proof (is_clipped_ceiling_mono _ _ _ _ Ht Hcc Hcc').
    rewrite !andb_true_iff, !Z.ltb_lt. lia.
  - replace (calcLevelCost (Num curr) (Num target)) with zeroLevelCost.
    + destruct (calcLevelCost_selection (Num curr') (Num target')) as [p ->].
      now apply (segmentSum_filter_le p p).
    + unfold calcLevelCost. cbn [js_le].
      destruct (Z.leb_spec target curr); [reflexivity | lia].
Qed.

Lemma calcLevelCost_monotone_witness :
  levelCost_le (calcLevelCost (Num 45) (Num 55))
               (calcLevelCost (Num 20) (Num 61)).
Proof. apply (calcLevelCost_monotone 45 20 55 61); lia. Defined.

(** An empty selection of segments. *)
Lemma no_segment_selected (cf cc : Z) :
  cc <= 1 \/ 90 <= cf -> List.filter (overlaps cf cc) LEVEL_COSTS = [].
Proof.
  intros H. rewrite <- (filter_false LEVEL_COSTS).
  apply List.filter_ext_in. intros row Hrow. unfold overlaps.
  apply andb_false_iff. rewrite !Z.ltb_ge.
  in_cases Hrow; simpl; lia.
Qed.

(** X4: a level that is NaN does not stop calcLevelCost: a NaN current
    level counts as level 1 and a NaN target as level 90, for every value
    of the other argument. *)
Theorem calcLevelCost_NaN_defaults :
  (forall target : number,
      calcLevelCost NaN target = calcLevelCost (Num 1) target)
  /\ (forall curr : number,
        calcLevelCost curr NaN = calcLevelCost curr (Num 90)).
Proof.
  split.
  - intros [|t]; [reflexivity|].
    unfold calcLevelCost. cbn [js_le].
    change (clipFloor NaN) with (Num 1). change (clipFloor (Num 1)) with (Num 1).
    destruct (Z.leb_spec t 1) as [Hle|_]; [|reflexivity].
    cbv zeta. destruct (clipCeiling_spec t) as (cc & -> & Hcc).
    rewrite levelLoop_spec. cbv zeta. rewrite no_segment_selected; [reflexivity|].
    left. destruct Hcc as [(_ & _ & Hmin)|[Hnone _]].
    + apply Hmin; [simpl; tauto | exact Hle].
    + exfalso. apply (Hnone 1); [simpl; tauto | exact Hle].
  - intros [|z]; [reflexivity|].
    unfold calcLevelCost. cbn [js_le].
    change (clipCeiling NaN) with (Num 90).
    change (clipCeiling (Num 90)) with (Num 90).
    destruct (Z.leb_spec 90 z) as [Hle|_]; [|reflexivity].
    cbv zeta. destruct (clipFloor_spec z) as (cf & -> & Hcf).
    rewrite levelLoop_spec. cbv zeta. rewrite no_segment_selected; [reflexivity|].
    right. destruct Hcf as [(_ & _ & Hmax)|[Hnone _]].
    + apply Hmax; [simpl; tauto | exact Hle].
    + exfalso. apply (Hnone 90); [simpl; tauto | exact Hle].
Qed.

(** * Further properties of the talent calculator and of the totals *)

Section MoreTalentFacts.

Variable TALENT_COSTS : list TalentStep.

(** With no negative cost in the table, the buckets of the series object
    hold numbers from 0 up. *)
Lemma bucket_sums_nonneg (l : list Entry) (k : string) (st : SeriesTotals) :
  costs_not_negative TALENT_COSTS ->
  snd (refreshTotals TALENT_COSTS l) !! k = Some st ->
  seriesSums_nonneg (sums st).
Proof.
  intros HT Hst.
  pose proof (bucket_absent TALENT_COSTS k l (zeroGlobalSums, ∅)
                (lookup_empty k)) as H.
  fold (refreshTotals TALENT_COSTS l) in H.
  destruct (List.filter (inSeries k) l) as [|first es].
  - rewrite Hst in H. discriminate.
  - destruct H as (b & st' & _ & _ & Hst' & _ & _ & _ & Ht & Hg & Hp).
    rewrite Hst in Hst'. injection Hst' as <-.
    unfold seriesSums_nonneg. rewrite Ht, Hg, Hp. unfold sumOf.
    repeat split; apply sumFrom_nonneg; try (cbn; lia);
      intros it _; apply or0_nonneg, nonneg_not_negative;
      destruct (calcCharacterCost_nonneg TALENT_COSTS it HT)
        as (_ & _ & _ & (Hl & Hm & Hh) & _); assumption.
Qed.

Lemma globalSums_are_nonneg (l : list Entry) :
  costs_not_negative TALENT_COSTS ->
  globalSums_nonneg (fst (refreshTotals TALENT_COSTS l)).
Proof.
  intros HT. unfold refreshTotals. rewrite totalsLoop_fst.
  unfold globalSums_nonneg, books_nonneg.
  cbn [fst zeroGlobalSums zeroBooks sum_mora sum_xp sum_hero sum_books
       sum_crown low mid high].
  repeat split; apply sumFrom_nonneg; try (cbn; lia); intros it _;
    destruct (calcCharacterCost_nonneg TALENT_COSTS it HT)
      as (H1 & H2 & H3 & (H4 & H5 & H6) & H7);
    try assumption; apply or0_nonneg, nonneg_not_negative; assumption.
Qed.

(** A talent cost whose sums need no rounding, as integers. *)
Lemma calcTalentCost_val (from to : number) :
  js_le to from = false ->
  exact_costs (List.filter (contained from to) TALENT_COSTS) ->
  calcTalentCost TALENT_COSTS from to
  = let sel := List.filter (contained from to) TALENT_COSTS in
    mkTalentCost
      (Num (sumZ (fun s => num_val (or0 (step_mora s))) sel))
      (Num (sumZ (fun s => num_val (or0 (step_crown s))) sel))
      (mkBooks (Num (sumZ (fun s => num_val (or0 (book_low s))) sel))
               (Num (sumZ (fun s => num_val (or0 (book_mid s))) sel))
               (Num (sumZ (fun s => num_val (or0 (book_high s))) sel))).
Proof.
  intros H ([Hm _] & [Hc _] & [Hl _] & [Hd _] & [Hh _]).
  rewrite (calcTalentCost_loop TALENT_COSTS from to H).
  unfold stepSum.
  rewrite (sumOf_val _ _ (fun s Hs => nonneg_is_num _ (Hm s Hs))),
    (sumOf_val _ _ (fun s Hs => nonneg_is_num _ (Hc s Hs))),
    (sumOf_val _ _ (fun s Hs => nonneg_is_num _ (Hl s Hs))),
    (sumOf_val _ _ (fun s Hs => nonneg_is_num _ (Hd s Hs))),
    (sumOf_val _ _ (fun s Hs => nonneg_is_num _ (Hh s Hs))).
  reflexivity.
Qed.

(** The rows inside a range lie inside every wider range. *)
Lemma contained_widen (a b a' b' : Z) (s : TalentStep) :
  a' <= a -> b <= b' ->
  contained (Num a) (Num b) s = true -> contained (Num a') (Num b') s = true.
Proof.
  intros Ha Hb. unfold contained.
  destruct (step_from s) as [|f], (step_to s) as [|t];
    cbn [js_ge js_le andb]; rewrite ?andb_false_r; try discriminate.
  rewrite !andb_true_iff, !Z.geb_leb, !Z.leb_le. lia.
Qed.

(** Sums without rounding over a range stay so over a narrower range. *)
Lemma exact_costs_narrow (a b a' b' : Z) :
  a' <= a -> b <= b' ->
  exact_costs (List.filter (contained (Num a') (Num b')) TALENT_COSTS) ->
  exact_costs (List.filter (contained (Num a) (Num b)) TALENT_COSTS).
Proof.
  intros Ha Hb (Hm & Hc & Hl & Hd & Hh).
  assert (Himp : forall s, In s TALENT_COSTS ->
                   contained (Num a) (Num b) s = true ->
                   contained (Num a') (Num b') s = true)
    by (intros s _; now apply contained_widen).
  repeat split;
    first [ apply (proj1 (exact_sum_filter _ _ _ _ Himp Hm))
          | apply (proj2 (exact_sum_filter _ _ _ _ Himp Hm))
          | apply (proj1 (exact_sum_filter _ _ _ _ Himp Hc))
          | apply (proj2 (exact_sum_filter _ _ _ _ Himp Hc))
          | apply (proj1 (exact_sum_filter _ _ _ _ Himp Hl))
          | apply (proj2 (exact_sum_filter _ _ _ _ Himp Hl))
          | apply (proj1 (exact_sum_filter _ _ _ _ Himp Hd))
          | apply (proj2 (exact_sum_filter _ _ _ _ Himp Hd))
          | apply (proj1 (exact_sum_filter _ _ _ _ Himp Hh))
          | apply (proj2 (exact_sum_filter _ _ _ _ Himp Hh)) ].
Qed.

End MoreTalentFacts.

(** Adding the zero talent cost changes nothing. *)
Lemma addTalentCost_zero_l (c : TalentCost) : addTalentCost zeroTalentCost c = c.
Proof.
  destruct c as [m cr [lo mi hi]].
  unfold addTalentCost, addBooks, zeroTalentCost, zeroBooks.
  cbn [tc_mora tc_crown tc_books low mid high].
  now rewrite !js_add_0_l.
Qed.

Lemma addTalentCost_zero_r (c : TalentCost) : addTalentCost c zeroTalentCost = c.
Proof.
  destruct c as [m cr [lo mi hi]].
  unfold addTalentCost, addBooks, zeroTalentCost, zeroBooks.
  cbn [tc_mora tc_crown tc_books low mid high].
  now rewrite !js_add_0_r.
Qed.

(** A selection that splits in two disjoint selections splits its sum. *)
Lemma sumZ_filter_split {A : Type} (g : A -> Z) (p q r : A -> bool)
      (l : list A) :
  (forall x, In x l -> p x = q x || r x /\ q x && r x = false) ->
  sumZ g (List.filter p l)
  = sumZ g (List.filter q l) + sumZ g (List.filter r l).
Proof.
  unfold sumZ. induction l as [|x l IH]; intros H; cbn [List.filter fold_right].
  - reflexivity.
  - destruct (H x (or_introl eq_refl)) as [Hp Hqr].
    assert (IH' := IH (fun y Hy => H y (or_intror Hy))).
    rewrite Hp. destruct (q x), (r x); try discriminate Hqr;
      cbn [orb fold_right]; lia.
Qed.

(** Inside a range [a, c] split at [b], a rising row that does not cross
    [b] lies in exactly one of the two halves. *)
Lemma contained_split (a b c : Z) (s : TalentStep) :
  a <= b -> b <= c ->
  (contained (Num a) (Num c) s = true -> rising_step s /\ clear_of b s) ->
  contained (Num a) (Num c) s
  = contained (Num a) (Num b) s || contained (Num b) (Num c) s
  /\ contained (Num a) (Num b) s && contained (Num b) (Num c) s = false.
Proof.
  intros Hab Hbc H. unfold contained, rising_step, clear_of in *.
  destruct (step_from s) as [|f], (step_to s) as [|t]; cbn [js_ge js_le] in *;
    try (split; reflexivity).
  - rewrite !andb_false_r. split; reflexivity.
  - rewrite !Z.geb_leb in *.
    destruct (Z.leb_spec a f), (Z.leb_spec t c), (Z.leb_spec t b),
      (Z.leb_spec b f); cbn [andb orb] in *;
      try (split; reflexivity); try lia;
      destruct (H eq_refl) as [(f' & t' & [= <-] & [= <-] & Hft) [Hc|Hc]];
      try discriminate Hc; lia.
Qed.

(** X5: when no cost field of the talent table is negative (a NaN field is
    allowed: the guards read it as 0), no cost is ever NaN or negative.
    Whatever the ranks and levels of the entries are, NaN included, every
    component of a talent cost, of a character cost, of the global sums and
    of every series bucket is a number from 0 up. *)
Theorem costs_never_NaN (TALENT_COSTS : list TalentStep) :
  costs_not_negative TALENT_COSTS ->
  (forall from to : number,
      let c := calcTalentCost TALENT_COSTS from to in
      nonneg_num (tc_mora c) /\ nonneg_num (tc_crown c)
      /\ books_nonneg (tc_books c))
  /\ (forall s : Entry,
        let c := calcCharacterCost TALENT_COSTS s in
        nonneg_num (cc_mora c) /\ nonneg_num (cc_xp c)
        /\ nonneg_num (cc_heroBooks c)
        /\ books_nonneg (cc_books c) /\ nonneg_num (cc_crown c))
  /\ (forall l : list Entry,
        globalSums_nonneg (fst (refreshTotals TALENT_COSTS l))
        /\ forall k st,
            snd (refreshTotals TALENT_COSTS l) !! k = Some st ->
            seriesSums_nonneg (sums st)).
Proof.
  intros HT. split; [|split].
  - intros from to. now apply calcTalentCost_nonneg.
  - intros s. now apply calcCharacterCost_nonneg.
  - intros l. split; [now apply globalSums_are_nonneg|].
    intros k st. now apply bucket_sums_nonneg.
Qed.

Lemma costs_never_NaN_witness :
  seriesSums_nonneg
    (mkSeriesSums (Num 6) (Num 0) (Num 0)).
Proof.
  assert (HT : costs_not_negative
                 [mkStep (Num 1) (Num 2) (Num 3) NaN NaN NaN NaN]).
  { intros s [<-|[]]. cbn. repeat split; lia. }
  pose proof (proj2 (proj2 (costs_never_NaN _ HT))
                [mkEntry "a-1" "a" "A" "" "" NaN NaN (Num 1) (Num 2) NaN NaN
                         (Num 1) (Num 10)
                         (ch_talent_book
                            (resolveSeries (Some "mond") (Some "m")))
                         (Text "mond")]) as [_ H].
  apply (H "freedom@@자유@@mond"%string
           (mkSeriesTotals "freedom" "자유" (Text "mond")
              (mkSeriesSums (Num 6) (Num 0) (Num 0))
              (mkSeriesIcons "images/books/mond_freedom_teachings.png"
                             "images/books/mond_freedom_guide.png"
                             "images/books/mond_freedom_philosophies.png"))).
  vm_compute. reflexivity.
Defined.

(** X6: calcTalentCost is additive at a rank that no row crosses, where
    its sums need no rounding.  For ranks a <= b <= c, when every row
    inside [a, c] goes up from an integer rank to a higher one and ends at
    or below b or starts at or above b, and the cost fields of those rows
    are NaN or integers from 0 up whose totals are at most 2^53,
    calcTalentCost(a, c) is the componentwise sum of calcTalentCost(a, b)
    and calcTalentCost(b, c). *)
Theorem calcTalentCost_additive_at_rank
  (TALENT_COSTS : list TalentStep) (a b c : Z) :
  a <= b -> b <= c ->
  (forall s, In s TALENT_COSTS ->
             contained (Num a) (Num c) s = true ->
             rising_step s /\ clear_of b s) ->
  exact_costs (List.filter (contained (Num a) (Num c)) TALENT_COSTS) ->
  calcTalentCost TALENT_COSTS (Num a) (Num c)
  = addTalentCost (calcTalentCost TALENT_COSTS (Num a) (Num b))
                  (calcTalentCost TALENT_COSTS (Num b) (Num c)).
Proof.
  intros Hab Hbc Hrows Hex.
  destruct (Z.eq_dec a b) as [<-|Hne1].
  { replace (calcTalentCost TALENT_COSTS (Num a) (Num a)) with zeroTalentCost.
    - symmetry. apply addTalentCost_zero_l.
    - unfold calcTalentCost. cbn [js_le]. now rewrite Z.leb_refl. }
  destruct (Z.eq_dec b c) as [<-|Hne2].
  { replace (calcTalentCost TALENT_COSTS (Num b) (Num b)) with zeroTalentCost.
    - symmetry. apply addTalentCost_zero_r.
    - unfold calcTalentCost. cbn [js_le]. now rewrite Z.leb_refl. }
  rewrite (calcTalentCost_val TALENT_COSTS (Num a) (Num c))
    by (exact Hex || (cbn [js_le]; apply Z.leb_gt; lia)).
  rewrite (calcTalentCost_val TALENT_COSTS (Num a) (Num b))
    by (first [ cbn [js_le]; apply Z.leb_gt; lia
              | apply (exact_costs_narrow TALENT_COSTS a b a c); (lia || exact Hex) ]).
  rewrite (calcTalentCost_val TALENT_COSTS (Num b) (Num c))
    by (first [ cbn [js_le]; apply Z.leb_gt; lia
              | apply (exact_costs_narrow TALENT_COSTS b c a c); (lia || exact Hex) ]).
  cbv zeta. unfold addTalentCost, addBooks.
  cbn [tc_mora tc_crown tc_books low mid high js_add].
  assert (Hsplit : forall s, In s TALENT_COSTS ->
            contained (Num a) (Num c) s
            = contained (Num a) (Num b) s || contained (Num b) (Num c) s
            /\ contained (Num a) (Num b) s && contained (Num b) (Num c) s
               = false).
  { intros s Hs. apply contained_split; [exact Hab | exact Hbc | auto]. }
  rewrite !(sumZ_filter_split _ _ _ _ _ Hsplit). reflexivity.
Qed.

Lemma calcTalentCost_additive_at_rank_witness :
  calcTalentCost
    [ mkStep (Num 1) (Num 2) (Num 3) (Num 0) (Num 0) (Num 12500) (Num 0);
      mkStep (Num 2) (Num 3) (Num 0) (Num 2) (Num 0) (Num 17500) (Num 0);
      mkStep (Num 3) (Num 4) (Num 0) (Num 4) (Num 0) (Num 25000) (Num 0) ]
    (Num 1) (Num 4)
  = addTalentCost
      (calcTalentCost
         [ mkStep (Num 1) (Num 2) (Num 3) (Num 0) (Num 0) (Num 12500) (Num 0);
           mkStep (Num 2) (Num 3) (Num 0) (Num 2) (Num 0) (Num 17500) (Num 0);
           mkStep (Num 3) (Num 4) (Num 0) (Num 4) (Num 0) (Num 25000) (Num 0) ]
         (Num 1) (Num 3))
      (calcTalentCost
         [ mkStep (Num 1) (Num 2) (Num 3) (Num 0) (Num 0) (Num 12500) (Num 0);
           mkStep (Num 2) (Num 3) (Num 0) (Num 2) (Num 0) (Num 17500) (Num 0);
           mkStep (Num 3) (Num 4) (Num 0) (Num 4) (Num 0) (Num 25000) (Num 0) ]
         (Num 3) (Num 4)).
Proof.
  apply (calcTalentCost_additive_at_rank _ 1 3 4); [lia | lia | |].
  - intros s Hs _. unfold rising_step, clear_of.
    in_cases Hs; cbn [step_from step_to js_le js_ge].
    + split; [exists 1, 2; repeat split; lia | left; reflexivity].
    + split; [exists 2, 3; repeat split; lia | left; reflexivity].
    + split; [exists 3, 4; repeat split; lia | right; reflexivity].
  - repeat split; try (intros s Hs; in_cases Hs); vm_compute; discriminate.
Defined.

(** X7: a row of book_cost.json without [from] or without [to] is never
    charged: after loadData it can be dropped from the table without
    changing any talent cost, whatever its cost fields hold. *)
Theorem row_without_range_never_charged
  (StringToNumber : string -> number) (before after : list RawStep)
  (r : RawStep) (from to : number) :
  raw_from r = JUndefined \/ raw_to r = JUndefined ->
  calcTalentCost (loadTalentCosts StringToNumber (Some (before ++ r :: after)))
                 from to
  = calcTalentCost (loadTalentCosts StringToNumber (Some (before ++ after)))
                   from to.
Proof.
  intros Hr. unfold loadTalentCosts. cbn [from_option id].
  rewrite !List.map_app. cbn [map].
  unfold calcTalentCost. destruct (js_le to from); [reflexivity|].
  rewrite !talentLoop_spec. cbv zeta.
  rewrite !List.filter_app. cbn [List.filter].
  rewrite NaN_range_not_contained; [reflexivity|].
  unfold normalizeStep. cbn [step_from step_to].
  destruct Hr as [-> | ->]; [left | right]; reflexivity.
Qed.

Lemma row_without_range_never_charged_witness :
  calcTalentCost
    (loadTalentCosts decimalToNumber
       (Some [ mkRawStep (JNumber (Num 1)) (JNumber (Num 2)) (JString "3")
                         JUndefined JUndefined (JNumber (Num 12500)) JNull;
               mkRawStep JUndefined (JNumber (Num 3)) JUndefined
                         (JNumber (Num 2)) JUndefined (JNumber (Num 17500))
                         JNull ]))
    (Num 1) (Num 6)
  = mkTalentCost (Num 12500) (Num 0) (mkBooks (Num 3) (Num 0) (Num 0)).
Proof.
  exact (row_without_range_never_charged decimalToNumber
           [ mkRawStep (JNumber (Num 1)) (JNumber (Num 2)) (JString "3")
                       JUndefined JUndefined (JNumber (Num 12500)) JNull ]
           []
           (mkRawStep JUndefined (JNumber (Num 3)) JUndefined
                      (JNumber (Num 2)) JUndefined (JNumber (Num 17500)) JNull)
           (Num 1) (Num 6) (or_introl eq_refl)).
Defined.

Lemma Permutation_filter_bool {A : Type} (p : A -> bool) (l l' : list A) :
  Permutation l l' -> Permutation (List.filter p l) (List.filter p l').
Proof.
  induction 1 as [|x l l' _ IH|x y l|l l' l'' _ IH1 _ IH2]; cbn [List.filter].
  - constructor.
  - destruct (p x); [now constructor | exact IH].
  - destruct (p x), (p y); try reflexivity. constructor.
  - now transitivity (List.filter p l').
Qed.

Section OrderFacts.

Variable TALENT_COSTS : list TalentStep.

Local Abbreviation cost := (calcCharacterCost TALENT_COSTS).

(** A sum without rounding does not depend on the order of its terms. *)
Lemma sumOf_Permutation (f : Entry -> number) (l l' : list Entry) :
  exact_sum f l -> Permutation l l' -> sumOf f l = sumOf f l'.
Proof.
  intros [Hf _] Hp.
  rewrite (sumOf_val f l) by (intros x Hx; now apply nonneg_is_num, Hf).
  rewrite (sumOf_val f l')
    by (intros x Hx; apply nonneg_is_num, Hf;
        now apply (Permutation_in x (Permutation_sym Hp))).
  f_equal. now apply sumZ_Permutation.
Qed.

(** Where the sums need no rounding, the global sums do not depend on the
    order of the working list. *)
Lemma globalSums_Permutation (l l' : list Entry) :
  exact_totals cost l -> Permutation l l' ->
  fst (refreshTotals TALENT_COSTS l) = fst (refreshTotals TALENT_COSTS l').
Proof.
  intros (H1 & H2 & H3 & H4 & H5 & H6 & H7) Hp.
  unfold refreshTotals. rewrite !totalsLoop_fst.
  cbn [fst zeroGlobalSums sum_mora sum_xp sum_hero sum_books sum_crown
       zeroBooks low mid high].
  fold (sumOf (fun it => cc_mora (cost it)) l).
  fold (sumOf (fun it => cc_mora (cost it)) l').
  fold (sumOf (fun it => cc_xp (cost it)) l).
  fold (sumOf (fun it => cc_xp (cost it)) l').
  fold (sumOf (fun it => cc_heroBooks (cost it)) l).
  fold (sumOf (fun it => cc_heroBooks (cost it)) l').
  fold (sumOf (fun it => or0 (low (cc_books (cost it)))) l).
  fold (sumOf (fun it => or0 (low (cc_books (cost it)))) l').
  fold (sumOf (fun it => or0 (mid (cc_books (cost it)))) l).
  fold (sumOf (fun it => or0 (mid (cc_books (cost it)))) l').
  fold (sumOf (fun it => or0 (high (cc_books (cost it)))) l).
  fold (sumOf (fun it => or0 (high (cc_books (cost it)))) l').
  fold (sumOf (fun it => or0 (cc_crown (cost it))) l).
  fold (sumOf (fun it => or0 (cc_crown (cost it))) l').
  rewrite (sumOf_Permutation (fun it => cc_mora (cost it)) l l'),
    (sumOf_Permutation (fun it => cc_xp (cost it)) l l'),
    (sumOf_Permutation (fun it => cc_heroBooks (cost it)) l l'),
    (sumOf_Permutation (fun it => or0 (low (cc_books (cost it)))) l l'),
    (sumOf_Permutation (fun it => or0 (mid (cc_books (cost it)))) l l'),
    (sumOf_Permutation (fun it => or0 (high (cc_books (cost it)))) l l'),
    (sumOf_Permutation (fun it => or0 (cc_crown (cost it))) l l');
    try exact Hp; try reflexivity; assumption.
Qed.

(** The sums of a bucket, from the entries of its series. *)
Lemma bucket_sums (l : list Entry) (k : string) :
  sums <$> snd (refreshTotals TALENT_COSTS l) !! k
  = match List.filter (inSeries k) l with
    | [] => None
    | es =>
        Some (mkSeriesSums
                (sumOf (fun it => or0 (low (cc_books (cost it)))) es)
                (sumOf (fun it => or0 (mid (cc_books (cost it)))) es)
                (sumOf (fun it => or0 (high (cc_books (cost it)))) es))
    end.
Proof.
  pose proof (bucket_absent TALENT_COSTS k l (zeroGlobalSums, ∅)
                (lookup_empty k)) as H.
  fold (refreshTotals TALENT_COSTS l) in H.
  destruct (List.filter (inSeries k) l) as [|first es].
  - now rewrite H.
  - destruct H as (b & st & _ & _ & -> & _ & _ & _ & Ht & Hg & Hp).
    cbn [fmap option_fmap option_map]. f_equal.
    destruct (sums st) as [t g p]. cbn in Ht, Hg, Hp. now subst.
Qed.

End OrderFacts.

(** X8: where the sums need no rounding, the order of the working list
    does not matter for the totals.  When each of the seven terms that
    refreshTotals adds for an entry is an integer from 0 up and their totals
    over the list are at most 2^53, two lists with the same entries in
    another order give the same global sums and, for every series key, the
    same teachings, guide and philosophies sums. *)
Theorem refreshTotals_order_irrelevant
  (TALENT_COSTS : list TalentStep) (l l' : list Entry) :
  Permutation l l' ->
  exact_totals (calcCharacterCost TALENT_COSTS) l ->
  fst (refreshTotals TALENT_COSTS l) = fst (refreshTotals TALENT_COSTS l')
  /\ forall k : string,
      sums <$> snd (refreshTotals TALENT_COSTS l) !! k
      = sums <$> snd (refreshTotals TALENT_COSTS l') !! k.
Proof.
  intros Hp Hex. split; [now apply globalSums_Permutation|].
  intros k. rewrite !bucket_sums.
  pose proof (Permutation_filter_bool (inSeries k) l l' Hp) as Hf.
  destruct (List.filter (inSeries k) l) as [|x es] eqn:E,
           (List.filter (inSeries k) l') as [|x' es'] eqn:E'.
  - reflexivity.
  - apply Permutation_nil in Hf. discriminate.
  - symmetry in Hf. apply Permutation_nil in Hf. discriminate.
  - destruct Hex as (_ & _ & _ & H4 & H5 & H6 & _).
    f_equal. f_equal; apply sumOf_Permutation; try exact Hf;
      rewrite <- E; now apply exact_sum_sublist.
Qed.

Lemma refreshTotals_order_irrelevant_witness :
  fst (refreshTotals []
         [ mkEntry "a-1" "a" "A" "" "" (Num 1) (Num 20) (Num 1) (Num 6)
                   (Num 1) (Num 6) (Num 1) (Num 6) None (Text "");
           mkEntry "b-2" "b" "B" "" "" (Num 20) (Num 90) (Num 1) (Num 6)
                   (Num 1) (Num 6) (Num 1) (Num 6) None (Text "") ])
  = fst (refreshTotals []
           [ mkEntry "b-2" "b" "B" "" "" (Num 20) (Num 90) (Num 1) (Num 6)
                     (Num 1) (Num 6) (Num 1) (Num 6) None (Text "");
             mkEntry "a-1" "a" "A" "" "" (Num 1) (Num 20) (Num 1) (Num 6)
                     (Num 1) (Num 6) (Num 1) (Num 6) None (Text "") ]).
Proof.
  apply (refreshTotals_order_irrelevant [] _ _ (perm_swap _ _ [])).
  repeat split; try (intros it Hit; in_cases Hit); vm_compute; discriminate.
Defined.

(** * Strings: trim, toLowerCase, clock stamps *)

Section StringFacts.

Local Open Scope string_scope.

Lemma lowerChar_whitespace (c : ascii) :
  isWhiteSpace (lowerChar c) = isWhiteSpace c.
Proof.
  destruct c as [[] [] [] [] [] [] [] []]; reflexivity.
Qed.

Lemma lowerChar_idem (c : ascii) : lowerChar (lowerChar c) = lowerChar c.
Proof.
  destruct c as [[] [] [] [] [] [] [] []]; reflexivity.
Qed.

Lemma toLowerCase_idem (s : string) : toLowerCase (toLowerCase s) = toLowerCase s.
Proof.
  induction s as [|c s IH]; cbn; [reflexivity|].
  now rewrite lowerChar_idem, IH.
Qed.

Lemma toLowerCase_empty (s : string) : toLowerCase s = "" <-> s = "".
Proof. destruct s; cbn; split; intros H; (reflexivity || discriminate). Qed.

Lemma trimStart_lower (s : string) :
  trimStart (toLowerCase s) = toLowerCase (trimStart s).
Proof.
  induction s as [|c s IH]; cbn; [reflexivity|].
  rewrite lowerChar_whitespace. destruct (isWhiteSpace c); [exact IH | reflexivity].
Qed.

Lemma trimEnd_lower (s : string) :
  trimEnd (toLowerCase s) = toLowerCase (trimEnd s).
Proof.
  induction s as [|c s IH]; cbn [toLowerCase trimEnd]; [reflexivity|].
  rewrite IH, lowerChar_whitespace.
  destruct (trimEnd s) as [|c' t]; cbn [toLowerCase].
  - destruct (isWhiteSpace c); reflexivity.
  - reflexivity.
Qed.

(** Lowercasing and trimming commute. *)
Lemma trim_lower (s : string) : trim (toLowerCase s) = toLowerCase (trim s).
Proof. unfold trim. now rewrite trimStart_lower, trimEnd_lower. Qed.

Lemma trimStart_clean (s : string) : cleanStart (trimStart s).
Proof.
  induction s as [|c s IH]; cbn; [exact I|].
  destruct (isWhiteSpace c) eqn:E; [exact IH | exact E].
Qed.

Lemma trimStart_of_clean (s : string) : cleanStart s -> trimStart s = s.
Proof. destruct s as [|c s]; cbn; [reflexivity|]. now intros ->. Qed.

Lemma trimEnd_clean (s : string) : cleanStart s -> cleanStart (trimEnd s).
Proof.
  destruct s as [|c s]; cbn [trimEnd cleanStart]; [exact id|].
  intros Hc. destruct (trimEnd s); [rewrite Hc|]; exact Hc.
Qed.

Lemma trimEnd_idem (s : string) : trimEnd (trimEnd s) = trimEnd s.
Proof.
  induction s as [|c s IH]; cbn [trimEnd]; [reflexivity|].
  destruct (trimEnd s) as [|c' t] eqn:E.
  - destruct (isWhiteSpace c) eqn:Ec; cbn [trimEnd]; [reflexivity|].
    now rewrite Ec.
  - cbn [trimEnd]. cbn [trimEnd] in IH. now rewrite IH.
Qed.

Lemma trim_idem (s : string) : trim (trim s) = trim s.
Proof.
  unfold trim. rewrite (trimStart_of_clean (trimEnd (trimStart s))).
  - apply trimEnd_idem.
  - apply trimEnd_clean, trimStart_clean.
Qed.

(** A normalized raw value is a fixed point of the normalization. *)
Lemma lower_trim_idem (s : string) :
  toLowerCase (trim (toLowerCase (trim s))) = toLowerCase (trim s).
Proof. now rewrite trim_lower, trim_idem, toLowerCase_idem. Qed.

(** The digits of a clock value hold no dash. *)
Lemma string_of_uint_no_dash (d : Decimal.uint) :
  allChars (fun c => negb (Ascii.eqb c "-")) (NilEmpty.string_of_uint d) = true.
Proof. induction d; cbn; assumption || reflexivity. Qed.

Lemma decimal_no_dash (n : N) :
  allChars (fun c => negb (Ascii.eqb c "-")) (decimal n) = true.
Proof. apply string_of_uint_no_dash. Qed.

Lemma allChars_app_dash (a b : string) :
  allChars (fun c => negb (Ascii.eqb c "-")) (a ++ "-" ++ b) = false.
Proof.
  induction a as [|c a IH]; [reflexivity|].
  change (String c a ++ "-" ++ b) with (String c (a ++ "-" ++ b)).
  cbn [allChars]. rewrite IH. apply andb_false_r.
Qed.

(** A stamp [id-digits] splits in one way only. *)
Lemma stamp_inj (a b t1 t2 : string) :
  allChars (fun c => negb (Ascii.eqb c "-")) t1 = true ->
  allChars (fun c => negb (Ascii.eqb c "-")) t2 = true ->
  a ++ "-" ++ t1 = b ++ "-" ++ t2 -> a = b /\ t1 = t2.
Proof.
  intros H1 H2. revert b.
  induction a as [|c a IH]; intros [|c' b] Heq.
  - change (String "-" t1 = String "-" t2) in Heq.
    injection Heq as ->. now split.
  - change (String "-" t1 = String c' (b ++ "-" ++ t2)) in Heq.
    injection Heq as <- ->. now rewrite allChars_app_dash in H1.
  - change (String c (a ++ "-" ++ t1) = String "-" t2) in Heq.
    injection Heq as -> <-. now rewrite allChars_app_dash in H2.
  - change (String c (a ++ "-" ++ t1) = String c' (b ++ "-" ++ t2)) in Heq.
    injection Heq as -> Heq. destruct (IH b Heq) as [-> ->]. now split.
Qed.

End StringFacts.

(** * The handlers of the working list *)

Section HandlerFacts.

Local Open Scope string_scope.

Lemma find_first_split {A : Type} (p : A -> bool) (l : list A) (x : A) :
  List.find p l = Some x ->
  exists before after,
    l = (before ++ x :: after)%list
    /\ (forall y, In y before -> p y = false) /\ p x = true.
Proof.
  induction l as [|y l IH]; cbn [List.find]; [discriminate|].
  destruct (p y) eqn:Ey.
  - intros [= ->]. exists [], l. repeat split; [intros ? []|exact Ey].
  - intros H. destruct (IH H) as (before & after & -> & Hb & Hx).
    exists (y :: before), after. repeat split; [|exact Hx].
    intros z [<-|Hz]; [exact Ey | now apply Hb].
Qed.

Lemma find_ext_bool {A : Type} (p q : A -> bool) (l : list A) :
  (forall x, p x = q x) -> List.find p l = List.find q l.
Proof.
  intros H. induction l as [|y l IH]; cbn [List.find]; [reflexivity|].
  now rewrite H, IH.
Qed.

(** The test [appState.list.some(x => x.id === found.id)]. *)
Lemma some_id_false (i : string) (l : list Entry) :
  existsb (fun x => String.eqb (item_id x) i) l = false
  <-> ~ In i (map item_id l).
Proof.
  induction l as [|e l IH]; cbn [existsb map In]; [tauto|].
  rewrite orb_false_iff, IH.
  destruct (String.eqb_spec (item_id e) i); split; intros H;
    try tauto; try (split; [reflexivity | tauto]).
  destruct H as [H _]. discriminate H.
Qed.

Lemma NoDup_map_filter {A B : Type} (f : A -> B) (p : A -> bool) (l : list A) :
  List.NoDup (map f l) -> List.NoDup (map f (List.filter p l)).
Proof.
  induction l as [|x l IH]; cbn [map List.filter]; [exact id|].
  intros H. apply List.NoDup_cons_iff in H as [Hx Hl].
  destruct (p x); [|now apply IH].
  cbn [map]. constructor; [|now apply IH].
  intros Hin. apply Hx. apply in_map_iff in Hin as (y & <- & Hy).
  apply filter_In in Hy as [Hy _]. now apply in_map.
Qed.

Lemma Forall_filter_bool {A : Type} (P : A -> Prop) (p : A -> bool)
      (l : list A) :
  Forall P l -> Forall P (List.filter p l).
Proof.
  rewrite !List.Forall_forall. intros H x Hx.
  apply filter_In in Hx as [Hx _]. now apply H.
Qed.

(** In a well-formed working list the uids are pairwise distinct. *)
Lemma roster_uids_NoDup (l : list Entry) :
  roster_ok l -> List.NoDup (map uid l).
Proof.
  intros [Hids Hst]. induction l as [|e l IH]; cbn [map]; [constructor|].
  cbn [map] in Hids. apply List.NoDup_cons_iff in Hids as [He Hids].
  apply List.Forall_cons_iff in Hst as [[n Hn] Hst].
  constructor; [|now apply IH].
  intros Hin. apply in_map_iff in Hin as (e' & Heq & He').
  rewrite List.Forall_forall in Hst. destruct (Hst e' He') as [n' Hn'].
  rewrite Hn, Hn' in Heq.
  apply stamp_inj in Heq as [Hid _]; try apply decimal_no_dash.
  apply He. rewrite <- Hid. now apply in_map.
Qed.

Lemma refreshTotals_push (T : list TalentStep) (l : list Entry) (e : Entry) :
  fst (refreshTotals T (l ++ [e])%list)
  = addGlobal (fst (refreshTotals T l)) (calcCharacterCost T e).
Proof.
  unfold refreshTotals. rewrite fold_left_app. cbn [fold_left].
  apply totalsStep_fst.
Qed.

(** What a click on the add button does, case by case. *)
Lemma btnAddClick_cases (C : list NormalizedCharacter) (now : N)
      (st : AppState) :
  let keyword := trim (search_value st) in
  (keyword = "" /\ btnAddClick C now st = (AddIgnored, st))
  \/ (keyword <> ""
      /\ List.find (matchesKeyword keyword) C = None
      /\ btnAddClick C now st = (AddNotFound, st))
  \/ (exists found,
         keyword <> ""
         /\ List.find (matchesKeyword keyword) C = Some found
         /\ In (nc_id found) (map item_id (app_list st))
         /\ btnAddClick C now st = (AddDuplicate, st))
  \/ (exists found,
         keyword <> ""
         /\ List.find (matchesKeyword keyword) C = Some found
         /\ ~ In (nc_id found) (map item_id (app_list st))
         /\ btnAddClick C now st
            = (AddDone,
               mkAppState (app_list st ++ [newEntry found now])%list "")).
Proof.
  cbv zeta. unfold btnAddClick. rewrite or_str_self.
  destruct (String.eqb_spec (trim (search_value st)) "") as [He|Hne];
    [left; now split|].
  right. destruct (List.find _ C) as [found|] eqn:Hfind;
    [|left; now repeat split].
  right. destruct (existsb _ (app_list st)) eqn:Hsome.
  - left. exists found. repeat split; try assumption.
    destruct (in_dec string_dec (nc_id found) (map item_id (app_list st)))
      as [Hin|Hnin]; [exact Hin|].
    apply some_id_false in Hnin. congruence.
  - right. exists found. repeat split; try assumption.
    now apply some_id_false.
Qed.

End HandlerFacts.

(** X9: for an ASCII search text and characters with ASCII names, a click
    on the add button changes the state only when it answers AddDone.
    Then the character added is the first one of CHARACTERS whose name or
    English name equals the trimmed keyword up to case, its id was not yet
    in the list, the list gains one entry, at its end, the search box is
    emptied, and every global sum rises by the cost of that entry.  The
    new entry has the uid id-clock, the id, name, element, image, series and
    region of the character, levels 1 to 90 and the three talents 1 to
    6. *)
Theorem btnAddClick_effect
  (CHARACTERS : list NormalizedCharacter) (now : N) (st : AppState)
  (TALENT_COSTS : list TalentStep) :
  isAscii (search_value st) = true ->
  asciiNames CHARACTERS ->
  match fst (btnAddClick CHARACTERS now st) with
  | AddDone =>
      exists before found after e,
        CHARACTERS = before ++ found :: after
        /\ (forall c, In c before ->
                      matchesKeyword (trim (search_value st)) c = false)
        /\ matchesKeyword (trim (search_value st)) found = true
        /\ ~ In (nc_id found) (map item_id (app_list st))
        /\ snd (btnAddClick CHARACTERS now st)
           = mkAppState (app_list st ++ [e]) ""
        /\ uid e = (nc_id found ++ "-" ++ decimal now)%string
        /\ item_id e = nc_id found /\ item_name e = nc_name found
        /\ item_element e = nc_element found
        /\ item_image e = nc_image found
        /\ talent_book e = ch_talent_book (nc_series found)
        /\ region e = ch_region (nc_series found)
        /\ levelCurrent e = Num 1 /\ levelTarget e = Num 90
        /\ naCurrent e = Num 1 /\ naTarget e = Num 6
        /\ skillCurrent e = Num 1 /\ skillTarget e = Num 6
        /\ burstCurrent e = Num 1 /\ burstTarget e = Num 6
        /\ fst (refreshTotals TALENT_COSTS
                  (app_list (snd (btnAddClick CHARACTERS now st))))
           = addGlobal (fst (refreshTotals TALENT_COSTS (app_list st)))
                       (calcCharacterCost TALENT_COSTS e)
  | _ => snd (btnAddClick CHARACTERS now st) = st
  end.
Proof.
  intros _ _.
  destruct (btnAddClick_cases CHARACTERS now st)
    as [[_ ->]|[(_ & _ & ->)|[(found & _ & _ & _ & ->)
                             |(found & _ & Hfind & Hnew & ->)]]];
    cbn [fst snd]; try reflexivity.
  apply find_first_split in Hfind as (before & after & -> & Hb & Hm).
  exists before, found, after, (newEntry found now).
  repeat split; try assumption.
  cbn [app_list]. apply refreshTotals_push.
Qed.

Lemma btnAddClick_effect_witness :
  exists e,
    snd (btnAddClick
           [ mkNormalizedCharacter "amber" "Amber" "Amber" "Pyro" "Bow"
               "images/amber.png" (resolveSeries (Some "mond") (Some "mon")) ]
           7 (mkAppState [] " amber "))
    = mkAppState ([] ++ [e]) ""
    /\ uid e = "amber-7"%string
    /\ levelCurrent e = Num 1 /\ levelTarget e = Num 90
    /\ naTarget e = Num 6 /\ skillTarget e = Num 6 /\ burstTarget e = Num 6.
Proof.
  assert (Ha : asciiNames
                 [ mkNormalizedCharacter "amber" "Amber" "Amber" "Pyro" "Bow"
                     "images/amber.png"
                     (resolveSeries (Some "mond") (Some "mon")) ]).
  { intros c [<-|[]]. split; reflexivity. }
  pose proof (btnAddClick_effect
                [ mkNormalizedCharacter "amber" "Amber" "Amber" "Pyro" "Bow"
                    "images/amber.png"
                    (resolveSeries (Some "mond") (Some "mon")) ]
                7 (mkAppState [] " amber ") [] eq_refl Ha) as H.
  assert (E : fst (btnAddClick
                     [ mkNormalizedCharacter "amber" "Amber" "Amber" "Pyro"
                         "Bow" "images/amber.png"
                         (resolveSeries (Some "mond") (Some "mon")) ]
                     7 (mkAppState [] " amber ")) = AddDone) by reflexivity.
  rewrite E in H.
  destruct H as (before & found & after & e & Hc & _ & _ & _ & Hsnd & Hu
                 & _ & _ & _ & _ & _ & _ & H1 & H90 & _ & Hna & _ & Hsk
                 & _ & Hbr & _).
  exists e. split; [exact Hsnd|].
  destruct before as [|c0 before].
  - injection Hc as <- _. cbn in Hu. repeat split; assumption.
  - destruct before; discriminate Hc.
Defined.

(** X10: the handlers keep the working list well formed.  From a list whose
    ids are pairwise distinct and whose uids are stamps [id-digits], a click
    on add, on a remove button or on clear leads to such a list again; the
    empty list of the start is one. *)
Theorem handlers_keep_roster_ok
  (CHARACTERS : list NormalizedCharacter) (now : N) (u : string)
  (confirmed : bool) (st : AppState) :
  roster_ok (app_list st) ->
  roster_ok (app_list (snd (btnAddClick CHARACTERS now st)))
  /\ roster_ok (app_list (removeClick u st))
  /\ roster_ok (app_list (btnClearClick confirmed st))
  /\ roster_ok [].
Proof.
  intros [Hids Hst]. split; [|split; [|split]].
  - destruct (btnAddClick_cases CHARACTERS now st)
      as [[_ ->]|[(_ & _ & ->)|[(found & _ & _ & _ & ->)
                               |(found & _ & _ & Hnew & ->)]]];
      cbn [snd app_list]; try (split; assumption).
    split.
    + rewrite List.map_app. apply List.NoDup_app; [exact Hids | |].
      * cbn. constructor; [intros [] | constructor].
      * intros a Ha [<-|[]]. exact (Hnew Ha).
    + apply List.Forall_app. split; [exact Hst|].
      constructor; [|constructor]. exists now. reflexivity.
  - unfold removeClick. cbn [app_list]. split.
    + now apply NoDup_map_filter.
    + now apply Forall_filter_bool.
  - unfold btnClearClick. destruct confirmed; cbn [negb app_list].
    + split; constructor.
    + split; assumption.
  - split; constructor.
Qed.

Lemma handlers_keep_roster_ok_witness :
  roster_ok
    (app_list
       (snd (btnAddClick
               [ mkNormalizedCharacter "amber" "Amber" "Amber" "Pyro" "Bow"
                   "images/amber.png" (resolveSeries (Some "mond") (Some "mon")) ]
               1700000000000 (mkAppState [] " amber")))).
Proof.
  apply (handlers_keep_roster_ok _ 1700000000000 "" true (mkAppState [] " amber")).
  split; constructor.
Defined.

(** X11: in a well-formed working list no two entries share a uid, so the
    uid that a remove button carries names one entry. *)
Theorem roster_uids_distinct (l : list Entry) (e1 e2 : Entry) :
  roster_ok l -> In e1 l -> In e2 l -> uid e1 = uid e2 ->
  item_id e1 = item_id e2 /\ List.NoDup (map uid l).
Proof.
  intros Hok H1 H2 Heq. split; [|now apply roster_uids_NoDup].
  destruct Hok as [_ Hst]. rewrite List.Forall_forall in Hst.
  destruct (Hst e1 H1) as [n1 Hn1]. destruct (Hst e2 H2) as [n2 Hn2].
  rewrite Hn1, Hn2 in Heq.
  now apply stamp_inj in Heq as [Hid _]; try apply decimal_no_dash.
Qed.

Lemma roster_uids_distinct_witness :
  item_id (newEntry (mkNormalizedCharacter "a-1" "A" "A" "" "" ""
                       (resolveSeries None None)) 5)
  = item_id (newEntry (mkNormalizedCharacter "a-1" "A" "A" "" "" ""
                         (resolveSeries None None)) 5)
  /\ List.NoDup
       (map uid
          [ newEntry (mkNormalizedCharacter "a" "B" "B" "" "" ""
                        (resolveSeries None None)) 15;
            newEntry (mkNormalizedCharacter "a-1" "A" "A" "" "" ""
                        (resolveSeries None None)) 5 ]).
Proof.
  apply (roster_uids_distinct
           [ newEntry (mkNormalizedCharacter "a" "B" "B" "" "" ""
                         (resolveSeries None None)) 15;
             newEntry (mkNormalizedCharacter "a-1" "A" "A" "" "" ""
                         (resolveSeries None None)) 5 ]).
  - split.
    + cbn. constructor; [intros [H|[]]; discriminate H|].
      constructor; [intros []|constructor].
    + constructor; [exists 15%N; reflexivity|].
      constructor; [exists 5%N; reflexivity|constructor].
  - right. left. reflexivity.
  - right. left. reflexivity.
  - reflexivity.
Defined.

(** X12: in a well-formed working list a click on the remove button of an
    entry deletes that entry and nothing else and keeps the order of the
    others; the text of the search box stays as it is. *)
Theorem removeClick_removes_exactly
  (l1 l2 : list Entry) (e : Entry) (search : string) :
  roster_ok (l1 ++ e :: l2) ->
  removeClick (uid e) (mkAppState (l1 ++ e :: l2) search)
  = mkAppState (l1 ++ l2) search.
Proof.
  intros Hok.
  apply roster_uids_NoDup in Hok. rewrite List.map_app in Hok.
  cbn [map] in Hok. apply List.NoDup_remove in Hok as [_ Hnot].
  unfold removeClick. cbn [app_list search_value]. f_equal.
  rewrite List.filter_app. cbn [List.filter].
  rewrite String.eqb_refl. cbn [negb].
  assert (Hkeep : forall l, (forall x, In x l -> In (uid x) (map uid l1 ++ map uid l2)) ->
            List.filter (fun x => negb (String.eqb (uid x) (uid e))) l = l).
  { intros l Hl. rewrite <- (filter_true l) at 2.
    apply List.filter_ext_in. intros x Hx.
    destruct (String.eqb_spec (uid x) (uid e)) as [Heq|]; [|reflexivity].
    exfalso. apply Hnot. rewrite <- Heq. now apply Hl. }
  rewrite !Hkeep; [reflexivity | |];
    intros x Hx; apply in_or_app; [right | left]; now apply in_map.
Qed.

Lemma removeClick_removes_exactly_witness :
  removeClick "b-2"
    (mkAppState
       [ mkEntry "a-1" "a" "A" "" "" (Num 1) (Num 90) (Num 1) (Num 6)
                 (Num 1) (Num 6) (Num 1) (Num 6) None (Text "");
         mkEntry "b-2" "b" "B" "" "" (Num 1) (Num 90) (Num 1) (Num 6)
                 (Num 1) (Num 6) (Num 1) (Num 6) None (Text "") ] "")
  = mkAppState
      [ mkEntry "a-1" "a" "A" "" "" (Num 1) (Num 90) (Num 1) (Num 6)
                (Num 1) (Num 6) (Num 1) (Num 6) None (Text "") ] "".
Proof.
  apply (removeClick_removes_exactly
           [ mkEntry "a-1" "a" "A" "" "" (Num 1) (Num 90) (Num 1) (Num 6)
                     (Num 1) (Num 6) (Num 1) (Num 6) None (Text "") ]
           []
           (mkEntry "b-2" "b" "B" "" "" (Num 1) (Num 90) (Num 1) (Num 6)
                    (Num 1) (Num 6) (Num 1) (Num 6) None (Text ""))).
  split.
  - cbn. constructor; [intros [H|[]]; discriminate H|].
    constructor; [intros []|constructor].
  - constructor; [exists 1%N; reflexivity|].
    constructor; [exists 2%N; reflexivity|constructor].
Defined.

Lemma matchesKeyword_lower (k k' : string) (c : NormalizedCharacter) :
  toLowerCase k = toLowerCase k' -> matchesKeyword k c = matchesKeyword k' c.
Proof. intros H. unfold matchesKeyword. now rewrite H. Qed.

Lemma trim_blank_lower (s s' : string) :
  toLowerCase (trim s) = toLowerCase (trim s') ->
  String.eqb (trim s) "" = String.eqb (trim s') "".
Proof.
  intros H.
  destruct (String.eqb_spec (trim s) "") as [E|E],
           (String.eqb_spec (trim s') "") as [E'|E']; try reflexivity; exfalso.
  - rewrite E in H. cbn [toLowerCase] in H. symmetry in H.
    apply (proj1 (toLowerCase_empty _)) in H. contradiction.
  - rewrite E' in H. cbn [toLowerCase] in H.
    apply (proj1 (toLowerCase_empty _)) in H. contradiction.
Qed.

(** X13: the search of the add button ignores case and surrounding white
    space: two texts of the search box that agree once trimmed and
    lowercased give the same answer and the same working list. *)
Theorem btnAddClick_keyword_insensitive
  (CHARACTERS : list NormalizedCharacter) (now : N) (l : list Entry)
  (s s' : string) :
  toLowerCase (trim s) = toLowerCase (trim s') ->
  fst (btnAddClick CHARACTERS now (mkAppState l s))
  = fst (btnAddClick CHARACTERS now (mkAppState l s'))
  /\ app_list (snd (btnAddClick CHARACTERS now (mkAppState l s)))
     = app_list (snd (btnAddClick CHARACTERS now (mkAppState l s'))).
Proof.
  intros H. unfold btnAddClick. cbn [search_value app_list].
  rewrite !or_str_self, (trim_blank_lower s s' H).
  destruct (String.eqb (trim s') ""); [split; reflexivity|].
  rewrite (find_ext_bool (matchesKeyword (trim s)) (matchesKeyword (trim s')))
    by (intros c; now apply matchesKeyword_lower).
  destruct (List.find _ CHARACTERS) as [found|]; [|split; reflexivity].
  destruct (existsb _ l); split; reflexivity.
Qed.

Lemma btnAddClick_keyword_insensitive_witness :
  fst (btnAddClick
         [ mkNormalizedCharacter "amber" "Amber" "Amber" "Pyro" "Bow"
             "images/amber.png" (resolveSeries (Some "mond") (Some "mon")) ]
         7 (mkAppState [] "  AMBER "))
  = fst (btnAddClick
           [ mkNormalizedCharacter "amber" "Amber" "Amber" "Pyro" "Bow"
               "images/amber.png" (resolveSeries (Some "mond") (Some "mon")) ]
           7 (mkAppState [] "amber")).
Proof.
  apply (btnAddClick_keyword_insensitive _ 7 [] "  AMBER " "amber").
  reflexivity.
Defined.

(** A character that matches the keyword is found or already listed. *)
Lemma name_match_is_found
  (CHARACTERS : list NormalizedCharacter) (c : NormalizedCharacter)
  (now : N) (st : AppState) :
  In c CHARACTERS ->
  (nc_name c <> ""%string
   /\ toLowerCase (trim (search_value st)) = toLowerCase (nc_name c))
  \/ (nc_name_en c <> ""%string
      /\ toLowerCase (trim (search_value st)) = toLowerCase (nc_name_en c)) ->
  fst (btnAddClick CHARACTERS now st) = AddDone
  \/ fst (btnAddClick CHARACTERS now st) = AddDuplicate.
Proof.
  intros Hc Hname.
  assert (Hm : matchesKeyword (trim (search_value st)) c = true).
  { unfold matchesKeyword. apply orb_true_iff.
    destruct Hname as [[Hne Heq]|[Hne Heq]]; [left | right];
      rewrite Heq, String.eqb_refl, andb_true_r;
      now destruct (String.eqb_spec (nc_name c) ""),
                   (String.eqb_spec (nc_name_en c) ""). }
  assert (Hk : trim (search_value st) <> ""%string).
  { intros E. rewrite E in Hname. cbn [toLowerCase] in Hname.
    destruct Hname as [[Hne Heq]|[Hne Heq]]; symmetry in Heq;
      apply (proj1 (toLowerCase_empty _)) in Heq; contradiction. }
  destruct (btnAddClick_cases CHARACTERS now st)
    as [[E _]|[(_ & Hnone & _)|[(found & _ & _ & _ & ->)
                               |(found & _ & _ & _ & ->)]]];
    cbn [fst]; try tauto.
  pose proof (find_none _ _ Hnone c Hc) as Hfalse. congruence.
Qed.

(** X14: a listed character can be reached by its name: when the search
    text is ASCII and, once trimmed, equals up to case the non-empty ASCII
    name or English name of some character of CHARACTERS, the click never
    answers AddIgnored or AddNotFound. *)
Theorem listed_name_is_found
  (CHARACTERS : list NormalizedCharacter) (c : NormalizedCharacter)
  (now : N) (st : AppState) :
  In c CHARACTERS ->
  isAscii (search_value st) = true ->
  (nc_name c <> ""%string /\ isAscii (nc_name c) = true
   /\ toLowerCase (trim (search_value st)) = toLowerCase (nc_name c))
  \/ (nc_name_en c <> ""%string /\ isAscii (nc_name_en c) = true
      /\ toLowerCase (trim (search_value st)) = toLowerCase (nc_name_en c)) ->
  fst (btnAddClick CHARACTERS now st) = AddDone
  \/ fst (btnAddClick CHARACTERS now st) = AddDuplicate.
Proof.
  intros Hc _ Hname. apply (name_match_is_found CHARACTERS c); [exact Hc|].
  destruct Hname as [(Hne & _ & Heq)|(Hne & _ & Heq)];
    [left | right]; now split.
Qed.

Lemma listed_name_is_found_witness :
  fst (btnAddClick
         [ mkNormalizedCharacter "hu_tao" "호두" "Hu Tao" "Pyro" "Polearm"
             "images/hu_tao.png" (resolveSeries (Some "liyue") (Some "tue")) ]
         7 (mkAppState [] " hu tao ")) = AddDone
  \/ fst (btnAddClick
            [ mkNormalizedCharacter "hu_tao" "호두" "Hu Tao" "Pyro" "Polearm"
                "images/hu_tao.png" (resolveSeries (Some "liyue") (Some "tue")) ]
            7 (mkAppState [] " hu tao ")) = AddDuplicate.
Proof.
  apply (listed_name_is_found _
           (mkNormalizedCharacter "hu_tao" "호두" "Hu Tao" "Pyro" "Polearm"
              "images/hu_tao.png" (resolveSeries (Some "liyue") (Some "tue")))).
  - left. reflexivity.
  - reflexivity.
  - right. split; [discriminate | split; reflexivity].
Defined.

Lemma sumZ_zero {A : Type} (f : A -> Z) (l : list A) :
  (forall x, f x = 0) -> sumZ f l = 0.
Proof.
  intros H. unfold sumZ. induction l as [|x l IH]; cbn [fold_right];
    [reflexivity | rewrite H, IH; reflexivity].
Qed.

(** With an empty talent table a character costs its level cost only. *)
Lemma calcCharacterCost_no_table (s : Entry) :
  calcCharacterCost [] s
  = let lvl := calcLevelCost (levelCurrent s) (levelTarget s) in
    mkCharacterCost (lc_mora lvl) (lc_xp lvl) (lc_hero lvl) zeroBooks (Num 0).
Proof.
  rewrite calcCharacterCost_fields. cbv zeta.
  assert (Hz : forall from to, calcTalentCost [] from to = zeroTalentCost).
  { intros from to. unfold calcTalentCost. now destruct (js_le to from). }
  rewrite !Hz. cbn [zeroTalentCost tc_mora tc_crown tc_books zeroBooks
                    low mid high].
  change (or0 (Num 0)) with (Num 0).
  now rewrite !js_add_0_r.
Qed.

(** X15: after a failed load the tables are empty and the application is
    inert but alive: no click on add changes the state or answers AddDone,
    every character cost is the level cost alone, and the book and crown
    sums of every list are zero.  A null book_cost.json gives the same
    empty talent table. *)
Theorem failed_load_degraded (StringToNumber : string -> number) :
  let CHARACTERS := fst (init StringToNumber None) in
  let TALENT_COSTS := snd (init StringToNumber None) in
  (forall now st,
      snd (btnAddClick CHARACTERS now st) = st
      /\ fst (btnAddClick CHARACTERS now st) <> AddDone)
  /\ (forall s : Entry,
        calcCharacterCost TALENT_COSTS s
        = let lvl := calcLevelCost (levelCurrent s) (levelTarget s) in
          mkCharacterCost (lc_mora lvl) (lc_xp lvl) (lc_hero lvl)
                          zeroBooks (Num 0))
  /\ (forall l : list Entry,
        sum_books (fst (refreshTotals TALENT_COSTS l)) = zeroBooks
        /\ sum_crown (fst (refreshTotals TALENT_COSTS l)) = Num 0)
  /\ loadTalentCosts StringToNumber None = TALENT_COSTS.
Proof.
  cbv zeta. cbn [init fst snd]. split; [|split; [|split; [|reflexivity]]].
  - intros now st.
    destruct (btnAddClick_cases [] now st)
      as [[_ ->]|[(_ & _ & ->)|[(found & _ & Hf & _)|(found & _ & Hf & _)]]];
      cbn [fst snd]; try (split; [reflexivity | discriminate]);
      discriminate Hf.
  - exact calcCharacterCost_no_table.
  - intros l. unfold refreshTotals. rewrite totalsLoop_fst.
    cbn [fst zeroGlobalSums sum_books sum_crown zeroBooks low mid high].
    rewrite !sumFrom_val by (intros it _; apply or0_is_num).
    rewrite !sumZ_zero
      by (intros it; now rewrite calcCharacterCost_no_table).
    split; reflexivity.
Qed.

(** * Further properties of the series resolver *)

Section MoreResolverFacts.

Local Open Scope string_scope.

(** TALENT_BOOKS has leaves for the six regions and the three days only. *)
Lemma TALENT_BOOKS_leaf_cases (rgn day : string)
      (days : gmap string SeriesEntry) (se : SeriesEntry) :
  TALENT_BOOKS !! rgn = Some days -> days !! day = Some se ->
  In rgn ["mond"; "liyue"; "inazuma"; "sumeru"; "fontaine"; "natlan"]
  /\ In day ["mon"; "tue"; "wed"].
Proof.
  intros Hr Hd. unfold TALENT_BOOKS in Hr.
  enum_lookup Hr; unfold seriesOfRegion in Hd; enum_lookup Hd;
    split; simpl; tauto.
Qed.

(** A character has a book exactly for those regions and days. *)
Lemma resolveSeries_book_iff (c_region c_day : option string) :
  let c := resolveSeries c_region c_day in
  ch_talent_book c <> None
  <-> In (ch_region c)
         [Text "mond"; Text "liyue"; Text "inazuma"; Text "sumeru";
          Text "fontaine"; Text "natlan"]
      /\ In (ch_day c) [Text "mon"; Text "tue"; Text "wed"].
Proof.
  cbv zeta. split.
  - destruct (ch_talent_book (resolveSeries c_region c_day)) as [b|] eqn:Hb;
      [|congruence].
    intros _.
    destruct (resolveSeries_book _ _ _ Hb)
      as (r & d & days & se & -> & -> & H1 & H2 & _).
    destruct (TALENT_BOOKS_leaf_cases _ _ _ _ H1 H2) as [Hr Hd].
    split; [in_cases Hr; simpl; tauto | in_cases Hd; simpl; tauto].
  - rewrite resolveSeries_unfold. cbv zeta.
    cbn [ch_region ch_day ch_talent_book].
    generalize (aliasOf REGION_ALIAS (toLowerCase (trim (or_str c_region ""))))
               (aliasOf DAY_ALIAS (toLowerCase (trim (or_str c_day "")))).
    intros rgn day [Hr Hd].
    in_cases Hr; in_cases Hd; vm_compute; discriminate.
Qed.

(** A normalized string is a fixed point of the alias step. *)
Lemma alias_fixed (table : gmap string string) (raw r : string) :
  (forall k v, table !! k = Some v ->
               v <> "" /\ toLowerCase (trim v) = v /\ table !! v = Some v) ->
  toLowerCase (trim raw) = raw ->
  aliasOf table raw = Text r ->
  toLowerCase (trim (or_str (Some r) "")) = r /\ aliasOf table r = Text r.
Proof.
  intros Htable Hraw Hr. rewrite or_str_self.
  pose proof (aliasOf_cases table raw (fun k v H => proj1 (Htable k v H))) as Hc.
  destruct (table !! raw) as [v|] eqn:E.
  - rewrite Hc in Hr. injection Hr as <-.
    destruct (Htable _ _ E) as (Hne & Hfix & Hv).
    split; [exact Hfix|].
    pose proof (aliasOf_cases table v (fun k v H => proj1 (Htable k v H))) as Hc'.
    now rewrite Hv in Hc'.
  - destruct (existsb _ _); rewrite Hc in Hr; [discriminate|].
    injection Hr as <-. now split.
Qed.

Lemma REGION_ALIAS_canonical (k v : string) :
  REGION_ALIAS !! k = Some v ->
  v <> "" /\ toLowerCase (trim v) = v /\ REGION_ALIAS !! v = Some v.
Proof.
  intros H. unfold REGION_ALIAS in H.
  enum_lookup H; (split; [discriminate | split; vm_compute; reflexivity]).
Qed.

Lemma DAY_ALIAS_canonical (k v : string) :
  DAY_ALIAS !! k = Some v ->
  v <> "" /\ toLowerCase (trim v) = v /\ DAY_ALIAS !! v = Some v.
Proof.
  intros H. unfold DAY_ALIAS in H.
  enum_lookup H; (split; [discriminate | split; vm_compute; reflexivity]).
Qed.

End MoreResolverFacts.

(** X16: a character gets a series exactly when its normalized region is
    one of mond, liyue, inazuma, sumeru, fontaine, natlan and its
    normalized day is mon, tue or wed; every spelling of Thursday to
    Sunday gives no series in every region.  The images of a series are
    built from the normalized region and the series key. *)
Theorem resolveSeries_series_iff (c_region c_day : option string) :
  let c := resolveSeries c_region c_day in
  (ch_talent_book c <> None
   <-> In (ch_region c)
          [Text "mond"; Text "liyue"; Text "inazuma"; Text "sumeru";
           Text "fontaine"; Text "natlan"]
       /\ In (ch_day c) [Text "mon"; Text "tue"; Text "wed"])
  /\ (In (ch_day c) [Text "thu"; Text "fri"; Text "sat"; Text "sun"] ->
      ch_talent_book c = None)
  /\ (forall b, ch_talent_book c = Some b ->
                book_image b = IMAGE_SERIES (valueText (ch_region c)) (key b)
                /\ tier_image (tier_low (tiers b))
                   = IMAGE_SERIES_TIER (valueText (ch_region c)) (key b)
                                       "teachings"
                /\ tier_image (tier_mid (tiers b))
                   = IMAGE_SERIES_TIER (valueText (ch_region c)) (key b) "guide"
                /\ tier_image (tier_high (tiers b))
                   = IMAGE_SERIES_TIER (valueText (ch_region c)) (key b)
                                       "philosophies").
Proof.
  cbv zeta.
  assert (Hiff : ch_talent_book (resolveSeries c_region c_day) <> None
                 <-> In (ch_region (resolveSeries c_region c_day))
                        [Text "mond"; Text "liyue"; Text "inazuma";
                         Text "sumeru"; Text "fontaine"; Text "natlan"]
                     /\ In (ch_day (resolveSeries c_region c_day))
                           [Text "mon"; Text "tue"; Text "wed"]).
  { apply resolveSeries_book_iff. }
  split; [exact Hiff|]. split.
  - intros Hday.
    destruct (ch_talent_book (resolveSeries c_region c_day)) as [b|] eqn:Hb;
      [|reflexivity].
    exfalso. destruct (proj1 Hiff) as [_ Hd]; [discriminate|].
    revert Hday Hd. generalize (ch_day (resolveSeries c_region c_day)).
    intros day Hday Hd.
    in_cases Hday; destruct Hd as [Hd|[Hd|[Hd|[]]]]; discriminate Hd.
  - intros b. rewrite resolveSeries_unfold. cbv zeta.
    cbn [ch_talent_book ch_region]. unfold seriesBook.
    destruct (truthy_value _ && truthy_value _); [|discriminate].
    destruct (TALENT_BOOKS !! _) as [days|]; [|discriminate].
    destruct (days !! _) as [se|]; [|discriminate].
    intros [= <-]. repeat split; reflexivity.
Qed.

Lemma resolveSeries_series_iff_witness :
  ch_talent_book (resolveSeries (Some "Liyue") (Some " Friday ")) = None.
Proof.
  apply (proj1 (proj2 (resolveSeries_series_iff (Some "Liyue") (Some " Friday ")))).
  vm_compute. tauto.
Defined.

(** X17: on ASCII input the normalization of region and day reads only the
    trimmed, lowercased text, and it is idempotent on the strings it
    returns: resolving the raw texts after trimming and lowercasing them
    gives the same character, and when the region and the day of a resolved
    character are strings (not members inherited from Object.prototype),
    resolving them again gives the same character. *)
Theorem resolveSeries_idempotent (c_region c_day : option string) :
  isAscii (or_str c_region "") = true ->
  isAscii (or_str c_day "") = true ->
  let c := resolveSeries c_region c_day in
  (forall r d : string,
      ch_region c = Text r -> ch_day c = Text d ->
      resolveSeries (Some r) (Some d) = c)
  /\ resolveSeries (Some (toLowerCase (trim (or_str c_region ""))))
                   (Some (toLowerCase (trim (or_str c_day ""))))
     = c.
Proof.
  intros _ _. cbv zeta.
  rewrite (resolveSeries_unfold c_region c_day). cbv zeta.
  cbn [ch_region ch_day]. split.
  - intros r d Hr Hd.
    destruct (alias_fixed REGION_ALIAS _ r REGION_ALIAS_canonical
                (lower_trim_idem _) Hr) as [Hr1 Hr2].
    destruct (alias_fixed DAY_ALIAS _ d DAY_ALIAS_canonical
                (lower_trim_idem _) Hd) as [Hd1 Hd2].
    rewrite resolveSeries_unfold. cbv zeta.
    rewrite Hr1, Hr2, Hd1, Hd2, Hr, Hd. reflexivity.
  - rewrite resolveSeries_unfold. cbv zeta.
    rewrite !or_str_self, !lower_trim_idem. reflexivity.
Qed.

Lemma resolveSeries_idempotent_witness :
  resolveSeries (Some "mond") (Some "mon")
  = resolveSeries (Some " Mondstadt ") (Some "MON").
Proof.
  apply (proj1 (resolveSeries_idempotent (Some " Mondstadt ") (Some "MON")
                  eq_refl eq_refl));
    vm_compute; reflexivity.
Defined.

(** * applyIcon *)

(** X18: an image walks through its fallback paths in order and stays on
    the last one.  After n load errors on a non-empty array the path shown
    is the element at index min(n, length-1), so it is always an element of
    the array and no index beyond the array is ever read; a single path
    stays for ever; with an empty array the path is undefined and stays
    so. *)
Theorem applyIcon_fallbacks (l : list string) (n : nat) :
  (l <> [] ->
   let st := Nat.iter n onerror (applyIcon (inr l)) in
   icon_i st = n /\ icon_list st = l
   /\ icon_src st = l !! Nat.min n (length l - 1)
   /\ exists p, icon_src st = Some p /\ In p l)
  /\ (forall p : string,
        icon_src (Nat.iter n onerror (applyIcon (inl p))) = Some p)
  /\ icon_src (Nat.iter n onerror (applyIcon (inr []))) = None.
Proof.
  assert (Hinv : forall l' : list string,
             let st := Nat.iter n onerror (applyIcon (inr l')) in
             icon_i st = n /\ icon_list st = l'
             /\ icon_src st = l' !! Nat.min n (length l' - 1)).
  { intros l'. cbv zeta. induction n as [|k IH].
    - split; [reflexivity|]. split; [reflexivity|]. reflexivity.
    - rewrite Nat.iter_succ. destruct IH as (Hi & Hl & Hs).
      unfold onerror at 1 3 5.
      rewrite Hi, Hl.
      destruct (Nat.ltb_spec (S k) (length l')) as [Hlt|Hge];
        cbn [icon_i icon_list icon_src];
        (split; [reflexivity|]); (split; [reflexivity|]).
      + f_equal. lia.
      + rewrite Hs. f_equal. lia. }
  split; [|split].
  - intros Hne. cbv zeta. destruct (Hinv l) as (Hi & Hl & Hs).
    repeat split; try assumption.
    destruct (l !! Nat.min n (length l - 1)) as [p|] eqn:E.
    + exists p. split; [now rewrite Hs|].
      apply list_elem_of_In. eapply list_elem_of_lookup_2. exact E.
    + exfalso. apply lookup_ge_None in E.
      destruct l; [contradiction | cbn in E; lia].
  - intros p. destruct (Hinv [p]) as (_ & _ & Hs).
    change (applyIcon (inl p)) with (applyIcon (inr [p])).
    rewrite Hs. cbn [length]. now rewrite Nat.min_0_r.
  - destruct (Hinv []) as (_ & _ & Hs). rewrite Hs. reflexivity.
Qed.

Lemma applyIcon_fallbacks_witness :
  icon_src (Nat.iter 2 onerror (applyIcon (inr ICON_HEROWIT)))
  = Some "images/icons/exp_book_purple.png"%string.
Proof.
  destruct (proj1 (applyIcon_fallbacks ICON_HEROWIT 2)) as (_ & _ & H & _);
    [discriminate | exact H].
Defined.

(** * Names that the search cannot reach *)

Lemma toLowerCase_clean (s : string) : cleanStart s -> cleanStart (toLowerCase s).
Proof.
  destruct s as [|c s]; cbn [toLowerCase cleanStart]; [exact id|].
  now rewrite lowerChar_whitespace.
Qed.

Lemma led_name_not_equal (name s : string) :
  ledByWhiteSpace name ->
  negb (String.eqb name "")
  && String.eqb (toLowerCase name) (toLowerCase (trim s)) = false.
Proof.
  destruct name as [|c rest]; cbn [ledByWhiteSpace]; [reflexivity|].
  intros Hc. cbn [String.eqb negb andb].
  destruct (String.eqb_spec (toLowerCase (String c rest)) (toLowerCase (trim s)))
    as [Heq|]; [|reflexivity].
  exfalso.
  assert (Hclean : cleanStart (toLowerCase (trim s))).
  { apply toLowerCase_clean. unfold trim. apply trimEnd_clean, trimStart_clean. }
  rewrite <- Heq in Hclean. cbn [toLowerCase cleanStart] in Hclean.
  rewrite lowerChar_whitespace in Hclean. congruence.
Qed.

(** X19: the keyword is trimmed but the names of the characters are not: a
    character whose name and English name are empty or start with white
    space is never matched, so when all characters are such no click on
    add ever adds an entry. *)
Theorem untrimmed_names_unreachable
  (CHARACTERS : list NormalizedCharacter) (now : N) (st : AppState) :
  (forall c, In c CHARACTERS ->
             ledByWhiteSpace (nc_name c) /\ ledByWhiteSpace (nc_name_en c)) ->
  (forall c, In c CHARACTERS ->
             matchesKeyword (trim (search_value st)) c = false)
  /\ snd (btnAddClick CHARACTERS now st) = st
  /\ (fst (btnAddClick CHARACTERS now st) = AddIgnored
      \/ fst (btnAddClick CHARACTERS now st) = AddNotFound).
Proof.
  intros Hled.
  assert (Hno : forall c, In c CHARACTERS ->
                          matchesKeyword (trim (search_value st)) c = false).
  { intros c Hc. destruct (Hled c Hc) as [H1 H2]. unfold matchesKeyword.
    now rewrite (led_name_not_equal _ _ H1), (led_name_not_equal _ _ H2). }
  split; [exact Hno|].
  destruct (btnAddClick_cases CHARACTERS now st)
    as [[_ ->]|[(_ & _ & ->)|[(found & _ & Hf & _)|(found & _ & Hf & _)]]];
    cbn [fst snd]; try (split; [reflexivity | tauto]);
    apply find_some in Hf as [Hin Hm]; rewrite (Hno _ Hin) in Hm;
    discriminate Hm.
Qed.

Lemma untrimmed_names_unreachable_witness :
  fst (btnAddClick
         [ normalizeCharacter
             (mkRawCharacter "amber" (Some " Amber") "" None None None
                             (Some "mond") (Some "mon")) ]
         7 (mkAppState [] " Amber")) = AddIgnored
  \/ fst (btnAddClick
            [ normalizeCharacter
                (mkRawCharacter "amber" (Some " Amber") "" None None None
                                (Some "mond") (Some "mon")) ]
            7 (mkAppState [] " Amber")) = AddNotFound.
Proof.
  apply (untrimmed_names_unreachable
           [ normalizeCharacter
               (mkRawCharacter "amber" (Some " Amber") "" None None None
                               (Some "mond") (Some "mon")) ]
           7 (mkAppState [] " Amber")).
  intros c [<-|[]]. split; [reflexivity | exact I].
Defined.

(** * makeId *)

Section MakeIdFacts.

Lemma allChars_impl (p q : ascii -> bool) (s : string) :
  (forall c, p c = true -> q c = true) ->
  allChars p s = true -> allChars q s = true.
Proof.
  intros H. induction s as [|c s IH]; cbn [allChars]; [reflexivity|].
  rewrite !andb_true_iff. intros [Hc Hs]. split; [now apply H | now apply IH].
Qed.

Lemma stripNonId_chars (s : string) : allChars isIdChar (stripNonId s) = true.
Proof.
  induction s as [|c s IH]; cbn [stripNonId]; [reflexivity|].
  destruct (isIdChar c) eqn:E; [|exact IH].
  cbn [allChars]. now rewrite E, IH.
Qed.

Lemma trimStart_chars (p : ascii -> bool) (s : string) :
  allChars p s = true -> allChars p (trimStart s) = true.
Proof.
  induction s as [|c s IH]; cbn [trimStart]; [reflexivity|].
  intros H. destruct (isWhiteSpace c); [|exact H].
  cbn [allChars] in H. apply andb_true_iff in H as [_ H]. now apply IH.
Qed.

Lemma trimEnd_chars (p : ascii -> bool) (s : string) :
  allChars p s = true -> allChars p (trimEnd s) = true.
Proof.
  induction s as [|c s IH]; cbn [trimEnd]; [reflexivity|].
  cbn [allChars]. rewrite andb_true_iff. intros [Hc Hs].
  specialize (IH Hs). destruct (trimEnd s) as [|c' t].
  - destruct (isWhiteSpace c); [reflexivity|]. cbn [allChars]. now rewrite Hc.
  - cbn [allChars] in *. now rewrite Hc, IH.
Qed.

Lemma lowerChar_id_char (c : ascii) :
  isIdChar c = true -> isSlugChar (lowerChar c) || isWhiteSpace (lowerChar c) = true.
Proof.
  destruct c as [[] [] [] [] [] [] [] []]; intros H;
    first [reflexivity | discriminate H].
Qed.

Lemma toLowerCase_chars (s : string) :
  allChars isIdChar s = true ->
  allChars (fun c => isSlugChar c || isWhiteSpace c) (toLowerCase s) = true.
Proof.
  induction s as [|c s IH]; cbn [toLowerCase allChars]; [reflexivity|].
  rewrite andb_true_iff. intros [Hc Hs].
  now rewrite (lowerChar_id_char c Hc), IH.
Qed.

Lemma underscoreRuns_chars (s : string) :
  allChars (fun c => isSlugChar c || isWhiteSpace c) s = true ->
  forall inRun, allChars isSlugChar (underscoreRuns inRun s) = true.
Proof.
  induction s as [|c s IH]; cbn [underscoreRuns allChars]; [reflexivity|].
  rewrite andb_true_iff. intros [Hc Hs] inRun.
  destruct (isWhiteSpace c) eqn:Ew.
  - destruct inRun; [now apply IH|].
    cbn [allChars]. now rewrite IH.
  - rewrite orb_false_r in Hc. cbn [allChars]. now rewrite Hc, IH.
Qed.

(** The characters of an id, for every input of the model. *)
Lemma makeId_chars (normalizeNFKD : string -> string) (name : string) :
  allChars isSlugChar (makeId normalizeNFKD name) = true.
Proof.
  unfold makeId, trim. apply underscoreRuns_chars, toLowerCase_chars.
  apply trimEnd_chars, trimStart_chars, stripNonId_chars.
Qed.

Lemma slug_char_facts (c : ascii) :
  isSlugChar c = true ->
  isIdChar c = true /\ isWhiteSpace c = false /\ lowerChar c = c
  /\ N.ltb (N_of_ascii c) 128 = true.
Proof.
  destruct c as [[] [] [] [] [] [] [] []]; intros H;
    first [discriminate H | repeat split; reflexivity].
Qed.

(** On a string of id characters every pass of makeId after the
    decomposition is the identity. *)
Lemma slug_fixed (s : string) :
  allChars isSlugChar s = true ->
  isAscii s = true /\ stripNonId s = s /\ trimStart s = s /\ trimEnd s = s
  /\ toLowerCase s = s /\ forall inRun, underscoreRuns inRun s = s.
Proof.
  induction s as [|c s IH]; [repeat split|].
  cbn [allChars]. rewrite andb_true_iff. intros [Hc Hs].
  destruct (slug_char_facts c Hc) as (Hid & Hws & Hlow & Hasc).
  destruct (IH Hs) as (H1 & H2 & H3 & H4 & H5 & H6).
  cbn [isAscii stripNonId trimStart trimEnd toLowerCase underscoreRuns].
  rewrite Hid, Hws, Hlow, Hasc, H1, H2, H4, H5.
  repeat split.
  - now destruct s.
  - intros inRun. now rewrite H6.
Qed.

End MakeIdFacts.

(** X20: an id made by makeId from a name that the Unicode decomposition
    leaves in ASCII holds only the characters a-z, 0-9, underscore and
    hyphen: no white space, no capital letter and nothing that needs
    escaping in the image path images/<id>.png. *)
Theorem makeId_is_slug (normalizeNFKD : string -> string) (name : string) :
  isAscii (normalizeNFKD name) = true ->
  allChars isSlugChar (makeId normalizeNFKD name) = true
  /\ allChars (fun c => negb (isWhiteSpace c)) (makeId normalizeNFKD name) = true.
Proof.
  intros _. split; [apply makeId_chars|].
  apply (allChars_impl isSlugChar); [|apply makeId_chars].
  intros c Hc. destruct (slug_char_facts c Hc) as (_ & -> & _). reflexivity.
Qed.

Lemma makeId_is_slug_witness :
  allChars isSlugChar (makeId (fun s => s) "Raiden Shogun (Ei)") = true.
Proof.
  apply (makeId_is_slug (fun s => s) "Raiden Shogun (Ei)"). reflexivity.
Defined.

(** X21: makeId is idempotent on such names: when the decomposition leaves
    ASCII strings unchanged, the id of an id is that id. *)
Theorem makeId_idempotent (normalizeNFKD : string -> string) (name : string) :
  (forall s, isAscii s = true -> normalizeNFKD s = s) ->
  isAscii (normalizeNFKD name) = true ->
  makeId normalizeNFKD (makeId normalizeNFKD name) = makeId normalizeNFKD name.
Proof.
  intros Hnfkd _.
  destruct (slug_fixed _ (makeId_chars normalizeNFKD name))
    as (Hasc & Hstrip & Hts & Hte & Hlow & Hruns).
  unfold makeId at 1. rewrite (Hnfkd _ Hasc), Hstrip.
  unfold trim. rewrite Hts, Hte, Hlow. apply Hruns.
Qed.

Lemma makeId_idempotent_witness :
  makeId (fun s => s) (makeId (fun s => s) " Hu  Tao! ")
  = makeId (fun s => s) " Hu  Tao! ".
Proof.
  apply (makeId_idempotent (fun s => s) " Hu  Tao! ");
    [intros s _; reflexivity | reflexivity].
Defined.

(** * The characters that loadData builds *)



(** * The candidate names of the generator *)

Section CandidateFacts.

Variable nameTest : string -> bool.
Variable lowerCase : string -> string.

(** A text that the loop accepts. *)
Local Abbreviation accepted :=
  (fun text : string =>
     text <> ""%string /\ nameTest text = true
     /\ ~ In (lowerCase text) junkWords).

(** The Map holds accepted texts under their lowercase keys, each key
    once. *)
Local Abbreviation nameSet_ok :=
  (fun nameSet : list (string * string) =>
     List.NoDup (map fst nameSet)
     /\ forall kv, In kv nameSet ->
                   fst kv = lowerCase (snd kv) /\ accepted (snd kv)).

Lemma has_key_false (key : string) (nameSet : list (string * string)) :
  existsb (fun kv => String.eqb (fst kv) key) nameSet = false
  <-> ~ In key (map fst nameSet).
Proof.
  induction nameSet as [|kv l IH]; cbn [existsb map In]; [tauto|].
  rewrite orb_false_iff, IH.
  destruct (String.eqb_spec (fst kv) key); split; intros H;
    try tauto; try (split; [reflexivity | tauto]).
  destruct H as [H _]. discriminate H.
Qed.

Lemma is_junk_false (key : string) :
  existsb (String.eqb key) junkWords = false <-> ~ In key junkWords.
Proof.
  rewrite <- not_true_iff_false, existsb_exists. split.
  - intros H Hin. apply H. exists key. split; [exact Hin | apply String.eqb_refl].
  - intros H (w & Hw & He). apply String.eqb_eq in He. subst w. contradiction.
Qed.

(** What one turn of the loop does. *)
Lemma collectStep_cases (nameSet : list (string * string)) (text : string) :
  (collectStep nameTest lowerCase nameSet text = nameSet
   /\ (accepted text -> In (lowerCase text) (map fst nameSet)))
  \/ (collectStep nameTest lowerCase nameSet text
      = nameSet ++ [(lowerCase text, text)]
      /\ accepted text /\ ~ In (lowerCase text) (map fst nameSet)).
Proof.
  unfold collectStep.
  destruct (String.eqb_spec text "") as [->|Hne]; cbn [negb andb];
    [left; split; [reflexivity | tauto]|].
  destruct (nameTest text) eqn:Ht; [|left; split; [reflexivity|]; intuition congruence].
  cbv zeta. destruct (existsb (String.eqb (lowerCase text)) junkWords) eqn:Hj.
  - left. split; [reflexivity|]. intros (_ & _ & Hnj).
    apply is_junk_false in Hnj. congruence.
  - apply is_junk_false in Hj.
    destruct (existsb _ nameSet) eqn:Hh.
    + left. split; [reflexivity|]. intros _.
      destruct (in_dec string_dec (lowerCase text) (map fst nameSet))
        as [Hin|Hnin]; [exact Hin|].
      apply has_key_false in Hnin. congruence.
    + right. apply has_key_false in Hh. repeat split; assumption.
Qed.

Lemma collectStep_ok (nameSet : list (string * string)) (text : string) :
  nameSet_ok nameSet -> nameSet_ok (collectStep nameTest lowerCase nameSet text).
Proof.
  intros [Hnd Hall].
  destruct (collectStep_cases nameSet text) as [[-> _]|(-> & Hacc & Hnew)];
    [now split|].
  split.
  - rewrite List.map_app. apply List.NoDup_app; [exact Hnd | |].
    + cbn. constructor; [intros [] | constructor].
    + intros k Hk [<-|[]]. exact (Hnew Hk).
  - intros kv Hkv. apply in_app_or in Hkv as [Hkv|[<-|[]]];
      [now apply Hall | now split].
Qed.

(** The loop, from any Map. *)
Lemma collect_loop (texts : list string) :
  forall nameSet,
    nameSet_ok nameSet ->
    let final := fold_left (collectStep nameTest lowerCase) texts nameSet in
    nameSet_ok final
    /\ (forall kv, In kv final -> In kv nameSet \/ In (snd kv) texts)
    /\ (forall k, In k (map fst nameSet) -> In k (map fst final))
    /\ (forall text, In text texts -> accepted text ->
                     In (lowerCase text) (map fst final)).
Proof.
  induction texts as [|t texts IH]; intros nameSet Hok; cbn [fold_left].
  - repeat split; try apply Hok; try tauto. intros text [].
  - specialize (IH _ (collectStep_ok nameSet t Hok)).
    cbv zeta in IH. destruct IH as (Hfin & Hfrom & Hkeep & Hall).
    assert (Hmono : forall k, In k (map fst nameSet) ->
              In k (map fst (collectStep nameTest lowerCase nameSet t))).
    { intros k Hk.
      destruct (collectStep_cases nameSet t) as [[-> _]|(-> & _ & _)];
        [exact Hk|]. rewrite List.map_app. apply in_or_app. now left. }
    split; [exact Hfin|]. split; [|split].
    + intros kv Hkv. destruct (Hfrom kv Hkv) as [Hin|Hin]; [|right; now right].
      destruct (collectStep_cases nameSet t) as [[E _]|(E & _ & _)];
        rewrite E in Hin; [now left|].
      apply in_app_or in Hin as [Hin|[<-|[]]]; [now left | right; now left].
    + intros k Hk. apply Hkeep, Hmono, Hk.
    + intros text [<-|Hin] Hacc; [|now apply Hall].
      apply Hkeep.
      destruct (collectStep_cases nameSet t) as [[-> Hhas]|(-> & _ & _)];
        [now apply Hhas|].
      rewrite List.map_app. apply in_or_app. right. now left.
Qed.

End CandidateFacts.

(** X23: the candidate names that the generator collects from the list
    page hold no name twice up to case; each of them is the text of an
    anchor that is not empty, passes the name test and is not a junk word;
    and every such anchor text is represented, up to case, by one of
    them. *)
Theorem candidateNames_deduplicated
  (nameTest : string -> bool) (lowerCase : string -> string)
  (texts : list string) :
  let names := candidateNames nameTest lowerCase texts in
  List.NoDup (map lowerCase names)
  /\ (forall name, In name names ->
                   In name texts /\ name <> ""%string
                   /\ nameTest name = true
                   /\ ~ In (lowerCase name) junkWords)
  /\ (forall text, In text texts -> text <> ""%string ->
                   nameTest text = true ->
                   ~ In (lowerCase text) junkWords ->
                   exists name, In name names
                                /\ lowerCase name = lowerCase text).
Proof.
  cbv zeta. unfold candidateNames.
  destruct (collect_loop nameTest lowerCase texts [])
    as ((Hnd & Hall) & Hfrom & _ & Hrep).
  { split; [constructor | intros kv []]. }
  set (final := fold_left (collectStep nameTest lowerCase) texts []) in *.
  assert (Hkeys : map lowerCase (map snd final) = map fst final).
  { rewrite List.map_map. apply List.map_ext_in. intros kv Hkv.
    symmetry. apply Hall, Hkv. }
  split; [now rewrite Hkeys|]. split.
  - intros name Hname. apply in_map_iff in Hname as (kv & <- & Hkv).
    destruct (Hall kv Hkv) as (_ & Hacc).
    destruct (Hfrom kv Hkv) as [[]|Hin]. now split.
  - intros text Hin Hne Ht Hj.
    pose proof (Hrep text Hin (conj Hne (conj Ht Hj))) as Hk.
    apply in_map_iff in Hk as (kv & Hfst & Hkv).
    exists (snd kv). split; [now apply in_map|].
    rewrite <- Hfst. symmetry. apply Hall, Hkv.
Qed.

Lemma candidateNames_deduplicated_witness :
  exists name,
    In name (candidateNames (fun _ => true) toLowerCase
               [ "Amber"; "Guide"; "AMBER"; ""; "Hu Tao" ]%string)
    /\ toLowerCase name = toLowerCase "AMBER".
Proof.
  apply (proj2 (proj2 (candidateNames_deduplicated (fun _ => true) toLowerCase
           [ "Amber"; "Guide"; "AMBER"; ""; "Hu Tao" ]%string))).
  - simpl. tauto.
  - discriminate.
  - reflexivity.
  - simpl. intros H. repeat (destruct H as [H|H]; [discriminate H|]). exact H.
Defined.
